(** * The popup of the YouTube RAG assistant: timestamps, citation links,
      transcript scraping and the session store

    A shallow embedding of [extension/popup.js].  JavaScript strings are
    sequences of UTF-16 code units, numbers are the integers the code
    computes with (or NaN), the session store of [chrome.storage.local] is a
    finite map from session ids to session records, and the event handlers
    are functions from what the browser hands them to the effects they
    perform. *)

From Stdlib Require Import ZArith NArith List Lia Bool.
From stdpp Require Import gmap strings list.
Import ListNotations.

Local Open Scope N_scope.

(** ** JavaScript strings *)

(** A string is the list of its UTF-16 code units. *)
Abbreviation jsstring := (list N).

(** A literal of the source, given by its ASCII text. *)
Fixpoint lit (s : string) : jsstring :=
  match s with
  | EmptyString => []
  | String a s' => Ascii.N_of_ascii a :: lit s'
  end.

(** The double quote, which the literals above cannot hold. *)
Definition dquote : jsstring := [34].

(** WhiteSpace and LineTerminator of ECMAScript: what [\s] matches and what
    [trim] and [parseInt] strip. *)
Definition isWhiteSpace (c : N) : bool :=
  ((9 <=? c) && (c <=? 13)) || (c =? 32) || (c =? 160) || (c =? 5760)
  || ((8192 <=? c) && (c <=? 8202)) || (c =? 8232) || (c =? 8233)
  || (c =? 8239) || (c =? 8287) || (c =? 12288) || (c =? 65279).

(** [\d] *)
Definition isDigit (c : N) : bool := (48 <=? c) && (c <=? 57).

Fixpoint trimStart (s : jsstring) : jsstring :=
  match s with
  | c :: s' => if isWhiteSpace c then trimStart s' else s
  | [] => []
  end.

Definition trimEnd (s : jsstring) : jsstring := rev (trimStart (rev s)).

(** [String.prototype.trim] *)
Definition trim (s : jsstring) : jsstring := trimEnd (trimStart s).

(** [String.prototype.split] with a one-unit separator: the pieces between
    the separators, so never an empty array. *)
Fixpoint split (sep : N) (s : jsstring) : list jsstring :=
  match s with
  | [] => [[]]
  | c :: s' =>
      if c =? sep then [] :: split sep s'
      else match split sep s' with
           | p :: ps => (c :: p) :: ps
           | [] => [[c]]
           end
  end.

(** ** JavaScript numbers *)

(** The numbers of this code are doubles whose value is an integer, the
    two infinities and NaN.  [Int z] is the double of value [z]; the two
    zeros are one, since no operation of this code tells them apart.
    [Infinity true] is the negative infinity. *)
Inductive jsnum : Type :=
| NaN : jsnum
| Int : Z -> jsnum
| Infinity : bool -> jsnum.

(** The double nearest to an integer, a tie going to the even significand,
    and an infinity for an integer out of range.  A double holds every
    integer of magnitude below 2^53; above, it holds the multiples of
    [2 ^ e] that have a significand of 53 bits. *)
Definition toDouble (z : Z) : jsnum :=
  let a := Z.abs z in
  if (a <? 2 ^ 53)%Z then Int z
  else
    let e := (Z.log2 a - 52)%Z in
    let q := (a / 2 ^ e)%Z in
    let r := (a mod 2 ^ e)%Z in
    let half := (2 ^ (e - 1))%Z in
    let q' := if (r <? half)%Z then q
              else if (half <? r)%Z then (q + 1)%Z
              else if Z.even q then q else (q + 1)%Z in
    let v := (q' * 2 ^ e)%Z in
    if (2 ^ 1024 <=? v)%Z then Infinity (z <? 0)%Z
    else Int (Z.sgn z * v).

(** [a + b]: the double nearest to the sum. *)
Definition jsadd (a b : jsnum) : jsnum :=
  match a, b with
  | Int x, Int y => toDouble (x + y)
  | Infinity s, Infinity t => if Bool.eqb s t then Infinity s else NaN
  | Infinity s, Int _ => Infinity s
  | Int _, Infinity s => Infinity s
  | _, _ => NaN
  end.

(** [a * b]: the double nearest to the product; zero times an infinity is
    NaN. *)
Definition jsmul (a b : jsnum) : jsnum :=
  match a, b with
  | Int x, Int y => toDouble (x * y)
  | Infinity s, Infinity t => Infinity (xorb s t)
  | Infinity s, Int y => if (y =? 0)%Z then NaN else Infinity (xorb s (y <? 0)%Z)
  | Int x, Infinity s => if (x =? 0)%Z then NaN else Infinity (xorb s (x <? 0)%Z)
  | _, _ => NaN
  end.

(** [Math.pow(base, exponent)] for an integer base and an exponent that is
    a natural number: the double nearest to the power.  The language
    leaves the accuracy of [Math.pow] to the engine; the properties below
    use the power only where it is a double itself, or where no more
    matters than that it is finite or not. *)
Definition Math_pow (base : Z) (exponent : nat) : jsnum :=
  toDouble (base ^ Z.of_nat exponent).

(** The value of a digit of radix [radix], if [c] is one. *)
Definition digitValue (radix : N) (c : N) : option N :=
  let v :=
    if (48 <=? c) && (c <=? 57) then Some (c - 48)
    else if (97 <=? c) && (c <=? 122) then Some (c - 87)
    else if (65 <=? c) && (c <=? 90) then Some (c - 55)
    else None in
  match v with
  | Some d => if d <? radix then Some d else None
  | None => None
  end.

(** The longest prefix of digits, read left to right; [None] when there is
    no digit at all. *)
Fixpoint readDigits (radix : N) (s : jsstring) (acc : option N) : option N :=
  match s with
  | c :: s' =>
      match digitValue radix c with
      | Some d => readDigits radix s' (Some (match acc with Some a => a * radix + d | None => d end))
      | None => acc
      end
  | [] => acc
  end.

(** [parseInt(string)] with no radix: leading white space is dropped, then
    a sign, then a [0x] or [0X] prefix selects radix 16, then the longest
    prefix of digits is read; with no digit the result is NaN, otherwise
    the double nearest to the integer read. *)
Definition parseInt (s : jsstring) : jsnum :=
  let s1 := trimStart s in
  let '(sign, s2) :=
    match s1 with
    | c :: r =>
        if c =? 45 then ((-1)%Z, r)
        else if c =? 43 then (1%Z, r)
        else (1%Z, s1)
    | [] => (1%Z, s1)
    end in
  let '(radix, s3) :=
    match s2 with
    | a :: b :: r =>
        if (a =? 48) && ((b =? 120) || (b =? 88)) then (16, r) else (10, s2)
    | _ => (10, s2)
    end in
  match readDigits radix s3 None with
  | Some n => toDouble (sign * Z.of_N n)
  | None => NaN
  end.

(** The loop of [timestampToSeconds]: [seconds += parseInt(parts[i]) *
    Math.pow(60, i)] for [i] from the index of the first remaining part. *)
Fixpoint sumParts (parts : list jsstring) (i : nat) (seconds : jsnum) : jsnum :=
  match parts with
  | [] => seconds
  | p :: ps =>
      sumParts ps (S i) (jsadd seconds (jsmul (parseInt p) (Math_pow 60 i)))
  end.

(** [timestampToSeconds(hms)] *)
Definition timestampToSeconds (hms : jsstring) : jsnum :=
  let parts := rev (split 58 hms) in
  sumParts parts 0 (Int 0).

(** The decimal digits of a non-negative integer, most significant first. *)
Fixpoint decimalDigits (fuel : nat) (n : N) : jsstring :=
  match fuel with
  | O => []
  | S f =>
      if n <? 10 then [48 + n]
      else decimalDigits f (n / 10) ++ [48 + n mod 10]
  end.

Definition decimal (n : N) : jsstring :=
  decimalDigits (S (N.to_nat (N.log2 n))) n.

(** Number to string, as a template literal does it: the decimal digits
    of an integer below 2^53 in magnitude, which is what the callers of
    this code pass. *)
Definition numToString (x : jsnum) : jsstring :=
  match x with
  | NaN => lit "NaN"
  | Int z =>
      if (z <? 0)%Z then 45 :: decimal (Z.to_N (- z)) else decimal (Z.to_N z)
  | Infinity negative => if negative then lit "-Infinity" else lit "Infinity"
  end.

(** ** The citation label *)

(** Modelled from the spec: the Citation Mapper [map_to_citation] belongs to
    the backend, whose source is absent.  The label of a start time is
    [MM:SS] when the hour component is zero and [HH:MM:SS] otherwise, each
    field in decimal with at least two digits. *)
Definition pad2 (n : N) : jsstring :=
  if n <? 10 then 48 :: decimal n else decimal n.

Definition map_to_citation (start_time : N) : jsstring :=
  let h := start_time / 3600 in
  let m := (start_time mod 3600) / 60 in
  let s := start_time mod 60 in
  if h =? 0 then pad2 m ++ [58] ++ pad2 s
  else pad2 h ++ [58] ++ pad2 m ++ [58] ++ pad2 s.

(** ** Regular expressions *)

(** The patterns of this file are built from character classes,
    concatenation, the greedy quantifiers [?] and [*], and capturing
    groups. *)
Inductive regex : Type :=
| Chr (p : N -> bool)
| Cat (r1 r2 : regex)
| Opt (r : regex)
| Star (r : regex)
| Grp (n : nat) (r : regex).

(** The state of a match attempt: the index reached and, for each group
    that has matched, the range of indices it matched. *)
Record mstate : Type := MState {
  endIndex : nat;
  captures : list (nat * (nat * nat))
}.

Definition advance (x : mstate) : mstate :=
  MState (S (endIndex x)) (captures x).

Definition setCapture (n start : nat) (y : mstate) : mstate :=
  MState (endIndex y) ((n, (start, endIndex y)) :: captures y).

(** An iteration of a quantifier counts only if it consumed input. *)
Definition progress (x y : mstate) : list mstate :=
  if (endIndex x <? endIndex y)%nat then [y] else [].

(** The iterations of [r*] from [x], the longest chains first. *)
Fixpoint star (fuel : nat) (step : mstate -> list mstate) (x : mstate) : list mstate :=
  match fuel with
  | O => [x]
  | S f =>
      flat_map (fun y => if (endIndex x <? endIndex y)%nat then star f step y else [])
               (step x) ++ [x]
  end.

(** The backtracking matcher: the states in which [r] can end when started
    in [x], in the order in which backtracking tries them.  The first one
    is the match. *)
Fixpoint run (input : jsstring) (r : regex) (x : mstate) : list mstate :=
  match r with
  | Chr p =>
      match input !! endIndex x with
      | Some c => if p c then [advance x] else []
      | None => []
      end
  | Cat r1 r2 => flat_map (run input r2) (run input r1 x)
  | Opt r1 => flat_map (progress x) (run input r1 x) ++ [x]
  | Star r1 => star (S (length input - endIndex x)) (run input r1) x
  | Grp n r1 => map (setCapture n (endIndex x)) (run input r1 x)
  end.

(** A match attempt at index 0 of [input]. *)
Definition exec (r : regex) (input : jsstring) : option mstate :=
  head (run input r (MState 0 [])).

Fixpoint getCapture (n : nat) (caps : list (nat * (nat * nat))) : option (nat * nat) :=
  match caps with
  | [] => None
  | (k, range) :: caps' => if (k =? n)%nat then Some range else getCapture n caps'
  end.

Definition substring (a b : nat) (s : jsstring) : jsstring :=
  take (b - a) (drop a s).

(** The text of group [n]; the empty string stands for a group that took
    no part in the match. *)
Definition group (n : nat) (input : jsstring) (x : mstate) : jsstring :=
  match getCapture n (captures x) with
  | Some (a, b) => substring a b input
  | None => []
  end.

(** [text.replace(regex, callback)] for a global [regex] and a callback of
    the match and its first group.  The scan goes left to right; the
    patterns here look at nothing before the index they start from, so the
    attempt at an index is the attempt at index 0 of the text from there.
    [skip] counts the units of the last match still to pass over.  After an
    empty match the scan moves on by one unit. *)
Fixpoint replaceFrom (r : regex) (callback : jsstring -> jsstring -> jsstring)
    (skip : nat) (text : jsstring) : jsstring :=
  match text with
  | [] =>
      match skip, exec r [] with
      | O, Some x => callback [] (group 1 [] x)
      | _, _ => []
      end
  | c :: rest =>
      match skip with
      | S k => replaceFrom r callback k rest
      | O =>
          match exec r text with
          | Some x =>
              callback (take (endIndex x) text) (group 1 text x) ++
              match endIndex x with
              | O => c :: replaceFrom r callback 0 rest
              | S k => replaceFrom r callback k rest
              end
          | None => c :: replaceFrom r callback 0 rest
          end
      end
  end.

Definition replace (r : regex) (callback : jsstring -> jsstring -> jsstring)
    (text : jsstring) : jsstring :=
  replaceFrom r callback 0 text.

(** ** Timestamp links *)

Definition isColon (c : N) : bool := c =? 58.
Definition isDash (c : N) : bool := c =? 45.
(** [[\[\(]] *)
Definition isOpen (c : N) : bool := (c =? 91) || (c =? 40).
(** [[\]\)]] *)
Definition isClose (c : N) : bool := (c =? 93) || (c =? 41).

(** [\d{1,2}:\d{2}(?::\d{2})?] *)
Definition timestampPattern : regex :=
  Cat (Cat (Chr isDigit) (Opt (Chr isDigit)))
      (Cat (Chr isColon)
           (Cat (Cat (Chr isDigit) (Chr isDigit))
                (Opt (Cat (Chr isColon) (Cat (Chr isDigit) (Chr isDigit)))))).

(** [\s*-\s*(\d{1,2}:\d{2}(?::\d{2})?)] *)
Definition linkRange : regex :=
  Cat (Star (Chr isWhiteSpace))
      (Cat (Chr isDash)
           (Cat (Star (Chr isWhiteSpace)) (Grp 2 timestampPattern))).

(** [(?:\s*-\s*(\d{1,2}:\d{2}(?::\d{2})?))?[\]\)]?] *)
Definition linkTail : regex :=
  Cat (Opt linkRange) (Opt (Chr isClose)).

(** The pattern after the optional opening bracket. *)
Definition linkBody : regex := Cat (Grp 1 timestampPattern) linkTail.

(** The regex of [linkifyTimestamps]. *)
Definition linkRegex : regex := Cat (Opt (Chr isOpen)) linkBody.

(** The anchor the callback builds. *)
Definition timeLink (seconds : jsnum) (matched : jsstring) : jsstring :=
  lit "<a href=" ++ dquote ++ lit "#" ++ dquote ++
  lit " class=" ++ dquote ++ lit "time-link" ++ dquote ++
  lit " data-time=" ++ dquote ++ numToString seconds ++ dquote ++ lit ">" ++
  matched ++ lit "</a>".

Definition linkCallback (matched startTime : jsstring) : jsstring :=
  timeLink (timestampToSeconds startTime) matched.

(** [linkifyTimestamps(text)] *)
Definition linkifyTimestamps (text : jsstring) : jsstring :=
  replace linkRegex linkCallback text.

(** ** The transcript scraper *)

(** A [ytd-transcript-segment-renderer] node, as far as the scraper looks at
    it: the [textContent] of its [.segment-timestamp] and [.segment-text]
    children, where it has them. *)
Record segmentNode : Type := SegmentNode {
  segmentTimestamp : option jsstring;
  segmentText : option jsstring
}.

(** The records the scraper emits: [{time, text}]. *)
Record transcriptRecord : Type := TranscriptRecord {
  time : jsstring;
  text : jsstring
}.

(** [node?.textContent.trim() || fallback] *)
Definition trimmedOr (content : option jsstring) (fallback : jsstring) : jsstring :=
  match content with
  | Some t =>
      match trim t with
      | [] => fallback
      | t' => t'
      end
  | None => fallback
  end.

(** [surgicalExtract()], from the segment nodes the page holds once the
    transcript panel has been opened: [null] when there is none. *)
Definition surgicalExtract (segments : list segmentNode) : option (list transcriptRecord) :=
  match segments with
  | [] => None
  | _ =>
      Some (map (fun s =>
                   TranscriptRecord (trimmedOr (segmentTimestamp s) (lit "0:00"))
                                    (trimmedOr (segmentText s) []))
                segments)
  end.

(** ** JSON bodies *)

#[local] Set Warnings "-register-all".
Inductive json : Type :=
| JNull
| JBool (b : bool)
| JNum (z : Z)
| JStr (s : jsstring)
| JArr (items : list json)
| JObj (fields : list (string * json)).

Fixpoint field (name : string) (fields : list (string * json)) : option json :=
  match fields with
  | [] => None
  | (k, v) :: fields' => if String.eqb k name then Some v else field name fields'
  end.

Definition recordJson (r : transcriptRecord) : json :=
  JObj [("time"%string, JStr (time r)); ("text"%string, JStr (text r))].

(** [JSON.stringify({ transcript: transcriptData })] *)
Definition transcriptBody (transcriptData : list transcriptRecord) : json :=
  JObj [("transcript"%string, JArr (map recordJson transcriptData))].

(** ** The session store *)

(** A saved chat message: [{sender, text, isHTML}]. *)
Record chatMessage : Type := ChatMessage {
  sender : jsstring;
  messageText : jsstring;
  isHTML : bool
}.

(** A session record of [chrome.storage.local], under [sessions[id]]. *)
Record session : Type := Session {
  timestamp : jsstring;
  videoUrl : jsstring;
  chatHistory : list chatMessage;
  transcriptData : list transcriptRecord
}.

(** The [sessions] object: session ids to session records. *)
Abbreviation sessionStore := (gmap jsstring session).

(** ** The popup *)

(** A message bubble of the chat container.  [bubbleId] is the identity of
    the DOM node, by which [remove()] finds it. *)
Record bubble : Type := Bubble {
  bubbleId : nat;
  bubbleSender : jsstring;
  bubbleText : jsstring;
  bubbleIsHTML : bool;
  bubbleTyped : bool
}.

(** The state of the popup: the global [currentSessionId] and the parts of
    the document the handlers read and write. *)
Record popup : Type := Popup {
  currentSessionId : option jsstring;
  chatContainer : list bubble;
  nextBubble : nat;
  questionValue : jsstring;
  questionDisabled : bool;
  askDisabled : bool;
  resyncDisabled : bool;
  activeTab : string
}.

(** The callbacks handed to [chrome.storage.local.get({ sessions: {} }, ...)]. *)
Inductive storageCallback : Type :=
| StoreMessage (m : chatMessage)
| StoreDeleteCurrent
| StoreNewSession (url : jsstring) (transcript : list transcriptRecord)
| StoreDeleteSelected (selected : list jsstring).

(** What a handler does to the world outside the popup's document. *)
Inductive effect : Type :=
| Fetch (path : string) (headers : list (string * jsstring)) (body : option json)
| StorageGet (callback : storageCallback)
| ConsoleError.

(** How a [fetch] ends: the promise rejects, or it resolves to a response
    with its [ok] flag and, where [json()] can parse it, its body. *)
Inductive fetched : Type :=
| Rejected
| Resolved (ok : bool) (data : option json).

(** A handler step: it may throw ([None]), changes the popup and performs
    effects. *)
Definition M (A : Type) : Type := popup -> option A * popup * list effect.

Definition ret {A} (a : A) : M A := fun p => (Some a, p, []).

Definition bind {A B} (m : M A) (k : A -> M B) : M B :=
  fun p =>
    match m p with
    | (Some a, p1, es1) => let '(r, p2, es2) := k a p1 in (r, p2, es1 ++ es2)
    | (None, p1, es1) => (None, p1, es1)
    end.

Definition throw {A} : M A := fun p => (None, p, []).

(** [try { m } catch (err) { handler }] *)
Definition tryCatch {A} (m : M A) (handler : M A) : M A :=
  fun p =>
    match m p with
    | (None, p1, es1) => let '(r, p2, es2) := handler p1 in (r, p2, es1 ++ es2)
    | done => done
    end.

(** [try { m } finally { cleanup }] *)
Definition finally {A} (m : M A) (cleanup : M unit) : M A :=
  fun p =>
    let '(r, p1, es1) := m p in
    match cleanup p1 with
    | (Some _, p2, es2) => (r, p2, es1 ++ es2)
    | (None, p2, es2) => (None, p2, es1 ++ es2)
    end.

Definition emit (e : effect) : M unit := fun p => (Some tt, p, [e]).
Definition gets {A} (f : popup -> A) : M A := fun p => (Some (f p), p, []).
Definition modify (f : popup -> popup) : M unit := fun p => (Some tt, f p, []).

Notation "'let*' x ':=' m 'in' k" := (bind m (fun x => k))
  (at level 10, x name, m at level 100, k at level 200).
Notation "m >> k" := (bind m (fun _ => k))
  (at level 90, right associativity).

Definition setCurrentSessionId (v : option jsstring) : M unit :=
  modify (fun p => Popup v (chatContainer p) (nextBubble p) (questionValue p)
                         (questionDisabled p) (askDisabled p) (resyncDisabled p) (activeTab p)).
Definition setChatContainer (v : list bubble) : M unit :=
  modify (fun p => Popup (currentSessionId p) v (nextBubble p) (questionValue p)
                         (questionDisabled p) (askDisabled p) (resyncDisabled p) (activeTab p)).
Definition setQuestionValue (v : jsstring) : M unit :=
  modify (fun p => Popup (currentSessionId p) (chatContainer p) (nextBubble p) v
                         (questionDisabled p) (askDisabled p) (resyncDisabled p) (activeTab p)).
Definition setQuestionDisabled (v : bool) : M unit :=
  modify (fun p => Popup (currentSessionId p) (chatContainer p) (nextBubble p) (questionValue p)
                         v (askDisabled p) (resyncDisabled p) (activeTab p)).
Definition setAskDisabled (v : bool) : M unit :=
  modify (fun p => Popup (currentSessionId p) (chatContainer p) (nextBubble p) (questionValue p)
                         (questionDisabled p) v (resyncDisabled p) (activeTab p)).
Definition setResyncDisabled (v : bool) : M unit :=
  modify (fun p => Popup (currentSessionId p) (chatContainer p) (nextBubble p) (questionValue p)
                         (questionDisabled p) (askDisabled p) v (activeTab p)).
Definition setActiveTab (v : string) : M unit :=
  modify (fun p => Popup (currentSessionId p) (chatContainer p) (nextBubble p) (questionValue p)
                         (questionDisabled p) (askDisabled p) (resyncDisabled p) v).

(** A new node of the chat container. *)
Definition addBubble (b : nat -> bubble) : M nat :=
  fun p =>
    (Some (nextBubble p),
     Popup (currentSessionId p) (chatContainer p ++ [b (nextBubble p)]) (S (nextBubble p))
           (questionValue p) (questionDisabled p) (askDisabled p) (resyncDisabled p)
           (activeTab p),
     []).

(** [node.remove()] *)
Definition removeBubble (id : nat) : M unit :=
  let* chat := gets chatContainer in
  setChatContainer (List.filter (fun b => negb (bubbleId b =? id)%nat) chat).

(** Truthiness of a value that is a string, [null] or [undefined]. *)
Definition truthy (v : option jsstring) : bool :=
  match v with
  | Some (_ :: _) => true
  | _ => false
  end.

(** The property key a value names: [null] names the key [null]. *)
Definition propertyKey (v : option jsstring) : jsstring :=
  match v with
  | Some k => k
  | None => lit "null"
  end.

(** [fetch(BACKEND_URL + path, { method: POST, headers, body })] *)
Definition fetch (path : string) (headers : list (string * jsstring)) (body : option json)
    (reply : fetched) : M (bool * option json) :=
  fun p =>
    match reply with
    | Rejected => (None, p, [Fetch path headers body])
    | Resolved ok data => (Some (ok, data), p, [Fetch path headers body])
    end.

Definition jsonHeaders : list (string * jsstring) :=
  [("Content-Type"%string, lit "application/json")].

(** [appendMessage(sender, text, isHTML, useTypewriter, shouldSave)]: the
    bubble goes into the chat container; with [shouldSave] and a current
    session, the message is handed to the store. *)
Definition appendMessage (sender text : jsstring) (isHTML useTypewriter shouldSave : bool) : M nat :=
  let* msgDiv := addBubble (fun id => Bubble id sender text isHTML (useTypewriter && isHTML)) in
  let* current := gets currentSessionId in
  (if shouldSave && truthy current
   then emit (StorageGet (StoreMessage (ChatMessage sender text isHTML)))
   else ret tt) >>
  ret msgDiv.

(** The storage callback of [appendMessage]: the sessions it writes back,
    or [None] when it writes nothing.  [current] is [currentSessionId] when
    the callback runs and [now] is [new Date().toLocaleString()]. *)
Definition appendMessage_store (m : chatMessage) (current : option jsstring) (now : jsstring)
    (sessions : sessionStore) : option sessionStore :=
  match sessions !! propertyKey current with
  | Some s =>
      Some (<[propertyKey current :=
                Session now (videoUrl s) (chatHistory s ++ [m]) (transcriptData s)]> sessions)
  | None => None
  end.

(** The messages the handlers show.  The pictographs are spelled by their
    code units. *)
Definition msgCleared : jsstring :=
  [55358; 56825] ++ lit " <b>Wiped:</b> Session deleted from browser and server.".
Definition msgClearFailed : jsstring :=
  [9888; 65039] ++ lit " Data cleared locally, but server reset failed.".
Definition msgRestoring : jsstring := [9203] ++ lit " Restoring video context...".
Definition msgRestoreFailed : jsstring :=
  [10060] ++ lit " Failed to restore context with server. Ensure the server is running.".
Definition msgNotVideo : jsstring := [10060] ++ lit " Not a valid YouTube video.".
Definition msgSyncing : jsstring := [55357; 56960] ++ lit " <b>Syncing New Video...</b>".
Definition msgReady : jsstring := [10024] ++ lit " <b>Ready.</b> Session started.".
Definition msgSyncFailed : jsstring :=
  [10060] ++ lit " Sync Failed: Ensure subtitles are available and the server is running.".
Definition msgNoToken : jsstring :=
  [9888; 65039] ++ lit " Please save your Hugging Face API token in the API tab first.".
Definition msgAnalyzing : jsstring := lit "Analyzing...".
Definition msgChatError : jsstring :=
  [10060] ++ lit " Chat Error: Make sure your Python backend is running.".

Definition system : jsstring := lit "system".

(** [performFullClear()].  [confirmed] is the answer to the [confirm]
    dialog and [reply] the end of the [/clear_context] request. *)
Definition performFullClear (confirmed : bool) (reply : fetched) : M unit :=
  let* current := gets currentSessionId in
  if negb (truthy current) then setChatContainer []
  else if negb confirmed then ret tt
  else
    tryCatch
      (fetch "/clear_context" [] None reply >>
       emit (StorageGet StoreDeleteCurrent) >>
       setChatContainer [] >>
       setCurrentSessionId None >>
       setQuestionDisabled true >>
       setAskDisabled true >>
       appendMessage system msgCleared true false false >>
       ret tt)
      (emit ConsoleError >>
       appendMessage system msgClearFailed false false false >>
       ret tt).


(** The replay of a saved chat: [session.chatHistory.forEach(...)]. *)
Fixpoint replay (history : list chatMessage) : M unit :=
  match history with
  | [] => ret tt
  | msg :: history' =>
      appendMessage (sender msg) (messageText msg) (isHTML msg) false false >>
      replay history'
  end.

(** [loadSpecificSession(id)]: the function hands this body to the store as
    a callback; [sessions] is what the store returns to it and [reply] the
    end of the [/save_transcript] request. *)
Definition loadSpecificSession (id : jsstring) (sessions : sessionStore) (reply : fetched)
    : M unit :=
  match sessions !! id with
  | None => ret tt
  | Some session =>
      setCurrentSessionId (Some id) >>
      setChatContainer [] >>
      let* loadingMsg := appendMessage system msgRestoring false false false in
      tryCatch
        (let* response :=
           fetch "/save_transcript" jsonHeaders
                 (Some (transcriptBody (transcriptData session))) reply in
         if fst response then
           removeBubble loadingMsg >>
           replay (chatHistory session) >>
           setActiveTab "tab-chat" >>
           setQuestionDisabled false >>
           setAskDisabled false
         else throw)
        (removeBubble loadingMsg >>
         appendMessage system msgRestoreFailed false false false >>
         ret tt)
  end.

(** [clearSelectedHistory()], from the values of the checked
    [.delete-checkbox] boxes. *)
Definition clearSelectedHistory (selected : list jsstring) : M unit :=
  match selected with
  | [] => ret tt
  | _ => emit (StorageGet (StoreDeleteSelected selected))
  end.

(** Its storage callback: [selected.forEach(id => delete data.sessions[id])],
    and the sessions it writes back. *)
Definition clearSelectedHistory_store (selected : list jsstring) (sessions : sessionStore)
    : option sessionStore :=
  Some (fold_left (fun acc id => delete id acc) selected sessions).

(** [haystack.includes(needle)] *)
Fixpoint startsWith (needle haystack : jsstring) : bool :=
  match needle, haystack with
  | [], _ => true
  | a :: needle', b :: haystack' => (a =? b) && startsWith needle' haystack'
  | _ :: _, [] => false
  end.

Fixpoint includes (needle haystack : jsstring) : bool :=
  startsWith needle haystack ||
  match haystack with
  | [] => false
  | _ :: haystack' => includes needle haystack'
  end.

(** [chrome.scripting.executeScript({ func: surgicalExtract })]: it rejects
    when the page cannot be scripted ([None]); otherwise [results[0].result]
    is what [surgicalExtract] returns on the page. *)
Definition executeScript (page : option (list segmentNode)) : M (option (list transcriptRecord)) :=
  match page with
  | Some segments => ret (surgicalExtract segments)
  | None => throw
  end.

(** The click handler of [resyncBtn].  [tab] is the active tab's URL (the
    handler goes on only on a [youtube.com/watch] page), [page]
    its segment nodes, [reply] the end of the [/save_transcript] request and
    [newId] is [Date.now().toString()]. *)
Definition resyncClick (tab : option jsstring) (page : option (list segmentNode))
    (reply : fetched) (newId : jsstring) : M unit :=
  match tab with
  | Some url =>
      if includes (lit "youtube.com/watch") url then
        setResyncDisabled true >>
        setChatContainer [] >>
        let* syncMsg := appendMessage system msgSyncing true false false in
        finally
          (tryCatch
             (let* result := executeScript page in
              match result with
              | Some transcriptData =>
                  let* res := fetch "/save_transcript" jsonHeaders
                                    (Some (transcriptBody transcriptData)) reply in
                  if negb (fst res) then throw
                  else
                    setCurrentSessionId (Some newId) >>
                    emit (StorageGet (StoreNewSession url transcriptData)) >>
                    removeBubble syncMsg >>
                    appendMessage system msgReady true false true >>
                    setQuestionDisabled false >>
                    setAskDisabled false
              | None => throw
              end)
             (emit ConsoleError >>
              appendMessage system msgSyncFailed false false false >>
              ret tt))
          (setResyncDisabled false)
      else appendMessage system msgNotVideo false false false >> ret tt
  | None => appendMessage system msgNotVideo false false false >> ret tt
  end.

(** The storage callback of the resync handler: the sessions it writes
    back.  [current] is [currentSessionId] when the callback runs and [now]
    is [new Date().toLocaleString()]. *)
Definition resync_store (url : jsstring) (transcript : list transcriptRecord)
    (current : option jsstring) (now : jsstring) (sessions : sessionStore)
    : option sessionStore :=
  Some (<[propertyKey current := Session now url [] transcript]> sessions).

(** [s.replace(/\n/g, "<br>")] *)
Definition breakLines (s : jsstring) : jsstring :=
  flat_map (fun c => if c =? 10 then lit "<br>" else [c]) s.

(** The request of the ask handler. *)
Definition chatHeaders (hfToken : jsstring) : list (string * jsstring) :=
  [("Content-Type"%string, lit "application/json"); ("X-HF-Token"%string, hfToken)].

Definition chatBody (question : jsstring) (isDetailed : bool) : json :=
  JObj [("question"%string, JStr question);
        ("mode"%string, JStr (if isDetailed then lit "detailed" else lit "concise"))].

(** What the ask handler does with the parsed reply [data]: it shows
    [data.answer] when that is a non-empty string, does nothing when it is
    falsy, and throws when [data] is [null] or the answer is a value without
    a [replace] method. *)
Definition showAnswer (data : json) : M unit :=
  match data with
  | JNull => throw
  | JObj fields =>
      match field "answer" fields with
      | Some (JStr (c :: s)) =>
          appendMessage (lit "ai") (breakLines (linkifyTimestamps (c :: s))) true true true >>
          ret tt
      | None | Some JNull | Some (JBool false) | Some (JNum 0%Z) | Some (JStr []) => ret tt
      | Some _ => throw
      end
  | _ => ret tt
  end.

(** The click handler of [askBtn].  [isDetailed] is the state of the
    [modeDetailed] box, [hfToken] the stored token and [reply] the end of
    the [/chat] request. *)
Definition askClick (isDetailed : bool) (hfToken : option jsstring) (reply : fetched) : M unit :=
  let* value := gets questionValue in
  let question := trim value in
  match question, hfToken with
  | [], _ => ret tt
  | _ :: _, Some (t :: oken) =>
      appendMessage (lit "user") question false false true >>
      setQuestionValue [] >>
      setAskDisabled true >>
      let* loadingMsg := appendMessage system msgAnalyzing false false false in
      finally
        (tryCatch
           (let* res := fetch "/chat" (chatHeaders (t :: oken))
                              (Some (chatBody question isDetailed)) reply in
            if negb (fst res) then throw
            else
              match snd res with
              | None => throw
              | Some data => removeBubble loadingMsg >> showAnswer data
              end)
           (emit ConsoleError >>
            removeBubble loadingMsg >>
            appendMessage system msgChatError false false false >>
            ret tt))
        (setAskDisabled false)
  | _ :: _, _ =>
      appendMessage system msgNoToken false false false >> ret tt
  end.

(** The requests among the effects of a handler. *)
Definition requests (es : list effect) : list effect :=
  List.filter (fun e => match e with Fetch _ _ _ => true | _ => false end) es.

Definition storageCalls (es : list effect) : list effect :=
  List.filter (fun e => match e with StorageGet _ => true | _ => false end) es.

(** ** Notions the properties are stated with *)

(** The number a string of decimal digits denotes. *)
Definition numeral (s : jsstring) : N :=
  fold_left (fun a c => a * 10 + (c - 48)) s 0.

Definition digits (s : jsstring) : Prop := Forall (fun c => isDigit c = true) s.

(** Every capture of a state ends at or before the index reached. *)
Definition capsOk (x : mstate) : Prop :=
  Forall (fun cap => (snd (snd cap) <= endIndex x)%nat) (captures x).

(** What a matching step keeps: the index only grows, stays within the
    input, and the captures stay behind it. *)
Definition follows (input : jsstring) (x y : mstate) : Prop :=
  (endIndex x <= endIndex y)%nat /\
  ((endIndex x <= length input)%nat -> (endIndex y <= length input)%nat) /\
  (capsOk x -> capsOk y).

(** No class of the pattern accepts the unit [c]. *)
Fixpoint rejects (c : N) (r : regex) : Prop :=
  match r with
  | Chr p => p c = false
  | Cat r1 r2 => rejects c r1 /\ rejects c r2
  | Opt r1 => rejects c r1
  | Star r1 => rejects c r1
  | Grp _ r1 => rejects c r1
  end.

(** Every class of the pattern takes related units alike. *)
Fixpoint respects (R : N -> N -> Prop) (r : regex) : Prop :=
  match r with
  | Chr p => forall a b, R a b -> p a = p b
  | Cat r1 r2 => respects R r1 /\ respects R r2
  | Opt r1 => respects R r1
  | Star r1 => respects R r1
  | Grp _ r1 => respects R r1
  end.

(** The state a match attempt starts in. *)
Definition start0 : mstate := MState 0 [].

(** The timestamps of the pattern: one or two digits of minutes, two of
    seconds, and optionally two more. *)
Inductive timestampForm : jsstring -> Prop :=
| M_SS a b c : digits [a; b; c] -> timestampForm [a; 58; b; c]
| MM_SS a a' b c : digits [a; a'; b; c] -> timestampForm [a; a'; 58; b; c]
| M_SS_SS a b c d e :
    digits [a; b; c; d; e] -> timestampForm [a; 58; b; c; 58; d; e]
| MM_SS_SS a a' b c d e :
    digits [a; a'; b; c; d; e] -> timestampForm [a; a'; 58; b; c; 58; d; e].

(** Two units are alike when they are equal or both digits. *)
Definition alike (a b : N) : Prop :=
  a = b \/ (isDigit a = true /\ isDigit b = true).


(** The results of a handler run. *)
Definition outcome {A} (res : option A * popup * list effect) : option A := fst (fst res).
Definition after {A} (res : option A * popup * list effect) : popup := snd (fst res).
Definition effects {A} (res : option A * popup * list effect) : list effect := snd res.



(** A popup with no session yet, and a store with one saved session. *)
Definition idlePopup : popup := Popup None [] 0 [] true true false "tab-chat".

Definition watchUrl : jsstring := lit "https://www.youtube.com/watch?v=dQw4w9WgXcQ".

Definition savedSession : session :=
  Session (lit "11/3/2026, 10:00:00 AM") watchUrl
          [ChatMessage system msgReady true; ChatMessage (lit "user") (lit "why?") false]
          [TranscriptRecord (lit "0:00") (lit "intro"); TranscriptRecord (lit "0:05") (lit "topic")].

Definition oneSession : gmap jsstring session := {[ lit "1762164000000" := savedSession ]}.

(** ** More of the popup: the strings a pattern allows *)

(** The strings a pattern matches as a whole. *)
Inductive lang : regex -> jsstring -> Prop :=
| lang_Chr p c : p c = true -> lang (Chr p) [c]
| lang_Cat r1 r2 s1 s2 : lang r1 s1 -> lang r2 s2 -> lang (Cat r1 r2) (s1 ++ s2)
| lang_Opt_none r : lang (Opt r) []
| lang_Opt_some r s : lang r s -> lang (Opt r) s
| lang_Star_nil r : lang (Star r) []
| lang_Star_more r s1 s2 : lang r s1 -> lang (Star r) s2 -> lang (Star r) (s1 ++ s2)
| lang_Grp n r s : lang r s -> lang (Grp n r) s.

(** The pattern [r] has no group [n]. *)
Fixpoint noGroup (n : nat) (r : regex) : Prop :=
  match r with
  | Chr _ => True
  | Cat r1 r2 => noGroup n r1 /\ noGroup n r2
  | Opt r1 => noGroup n r1
  | Star r1 => noGroup n r1
  | Grp k r1 => k <> n /\ noGroup n r1
  end.

(** The pieces [replace] puts a text together from: a unit it copies, or a
    match with its first group, in whose place stands an anchor with a
    number in its [data-time]. *)
Inductive piece : Type :=
| Plain (c : N)
| Link (matched startTime number : jsstring).

Definition pieceText (p : piece) : jsstring :=
  match p with
  | Plain c => [c]
  | Link matched _ _ => matched
  end.

(** What stands in the output for a piece: the anchor is spelled out, unit
    by unit, with 34 for the double quote. *)
Definition pieceLink (p : piece) : jsstring :=
  match p with
  | Plain c => [c]
  | Link matched _ number =>
      lit "<a href=" ++ [34] ++ lit "#" ++ [34] ++
      lit " class=" ++ [34] ++ lit "time-link" ++ [34] ++
      lit " data-time=" ++ [34] ++ number ++ [34] ++ lit ">" ++
      matched ++ lit "</a>"
  end.

(** A run of white space. *)
Definition blank (s : jsstring) : Prop := Forall (fun c => isWhiteSpace c = true) s.

(** The shape of a match of the link pattern with start timestamp [T]: an
    opening bracket or none, [T], a range tail (white space, a dash, white
    space, a timestamp) or none, a closing bracket or none. *)
Definition linkShape (matched T : jsstring) : Prop :=
  exists opening range closing,
    matched = opening ++ T ++ range ++ closing /\
    timestampForm T /\
    (opening = [] \/ exists c, opening = [c] /\ isOpen c = true) /\
    (range = [] \/
     exists W1 W2 T', blank W1 /\ blank W2 /\ timestampForm T' /\
                      range = W1 ++ [45] ++ W2 ++ T') /\
    (closing = [] \/ exists c, closing = [c] /\ isClose c = true).

(** What a piece of a linked text is: a copied unit, or a match of the link
    shape whose number is the decimal numeral, without leading zeros, of
    the seconds of its start timestamp. *)
Definition pieceOk (p : piece) : Prop :=
  match p with
  | Plain _ => True
  | Link matched startTime number =>
      linkShape matched startTime /\
      digits number /\ number <> [] /\ (head number = Some 48 -> number = [48]) /\
      timestampToSeconds startTime = Int (Z.of_N (numeral number))
  end.

(** ** Markers and where they stand *)

(** The scan of [replace] over a text with the link pattern tries the
    pattern at the suffix [u] of the text: at the text itself, behind a unit
    at which the pattern did not match, and behind a match. *)
Inductive attempt : jsstring -> jsstring -> Prop :=
| attempt_here text : attempt text text
| attempt_miss c rest u :
    exec linkRegex (c :: rest) = None -> attempt rest u -> attempt (c :: rest) u
| attempt_hit text x u :
    exec linkRegex text = Some x -> attempt (drop (endIndex x) text) u -> attempt text u.

(** The pattern cannot go on from [u] into the text [t] behind it: [u] with
    a part of [t] is never a string of the pattern. *)
Definition ends (u t : jsstring) : Prop :=
  forall v, v <> [] -> v `prefix_of` t -> ~ lang linkRegex (u ++ v).

(** A bare timestamp [T] between [pre] and [post] stands alone: no match
    that the scan of [pre] tries reaches into [T], and the pattern cannot go
    on behind [T].  This is the case exactly when the whole text is linked
    as its three parts are, one by one ([alone_exact_links] below), and it
    is decided by [aloneb] ([alone_decided]). *)
Definition alone (pre T post : jsstring) : Prop :=
  (forall u, attempt pre u -> u <> [] -> ends u (T ++ post)) /\
  ends T post.


(** Whether a state lies within the first [n] units. *)
Definition within (n : nat) (y : mstate) : bool := (endIndex y <=? n)%nat.

(** The suffixes at which the scan tries the pattern, as [replaceFrom]
    walks the text. *)
Fixpoint attemptsFrom (skip : nat) (text : jsstring) : list jsstring :=
  match text with
  | [] => [[]]
  | c :: rest =>
      match skip with
      | S k => attemptsFrom k rest
      | O =>
          text ::
          match exec linkRegex text with
          | Some x =>
              match endIndex x with
              | O => attemptsFrom 0 rest
              | S k => attemptsFrom k rest
              end
          | None => attemptsFrom 0 rest
          end
      end
  end.

(** Whether every end the matcher reaches from [u] on [u ++ t] lies within
    [u]. *)
Definition endsb (u t : jsstring) : bool :=
  forallb (within (length u)) (run (u ++ t) linkRegex start0).

(** Whether a bare timestamp stands alone, computed. *)
Definition aloneb (pre T post : jsstring) : bool :=
  forallb (fun u => match u with [] => true | _ => endsb u (T ++ post) end)
          (attemptsFrom 0 pre) &&
  endsb T post.

(** ** More of the popup: timestamps of any number of fields *)

(** [fields.join(":")] *)
Fixpoint joinColon (fields : list jsstring) : jsstring :=
  match fields with
  | [] => []
  | [f] => f
  | f :: fields' => f ++ 58 :: joinColon fields'
  end.




(** ** More of the popup: trimmed strings *)

(** A string with no white space at either end. *)
Definition trimmed (s : jsstring) : Prop :=
  forall c, head s = Some c \/ last s = Some c -> isWhiteSpace c = false.

(** [t] is [s] with white space around it. *)
Definition padded (s t : jsstring) : Prop :=
  exists W1 W2, blank W1 /\ blank W2 /\ t = W1 ++ s ++ W2.

(** ** More of the popup: the typewriter *)

(** [s.indexOf(c, from)] for a unit [c]: the first index at or after
    [from] that holds [c]; [None] stands for -1. *)
Fixpoint indexOf (c : N) (s : jsstring) (from : nat) : option nat :=
  match s with
  | [] => None
  | x :: s' =>
      match from with
      | O => if x =? c then Some O else option_map S (indexOf c s' O)
      | S from' => option_map S (indexOf c s' from')
      end
  end.

(** One call of [type] at index [i] below [content.length]: a tag is
    passed over as a whole, up to its [>]; with no [>] ahead, [indexOf]
    gives -1 and the index goes back to 0. *)
Definition typeNext (content : jsstring) (i : nat) : nat :=
  if bool_decide (content !! i = Some 60) then
    match indexOf 62 content i with
    | Some tagEnd => S tagEnd
    | None => O
    end
  else S i.

(** The calls of [type] from index [i], one for each tick of the timer:
    the markup each call puts into the element.  A call at the end of
    [content] writes nothing and sets no timer. *)
Fixpoint type (ticks : nat) (content : jsstring) (i : nat) : list jsstring :=
  match ticks with
  | O => []
  | S ticks' =>
      if (i <? length content)%nat then
        substring 0 (typeNext content i) content ::
        type ticks' content (typeNext content i)
      else []
  end.

(** [typeWriter(element, html)], where [content] is the markup of [html]
    as the browser gives it back: the frames the element shows after its
    first, empty one, within [ticks] calls of [type]. *)
Definition typeWriter (ticks : nat) (content : jsstring) : list jsstring :=
  type ticks content 0.

(** Every [<] of the string has a [>] behind it. *)
Definition closedTags (s : jsstring) : Prop :=
  forall k, s !! k = Some 60 -> exists j, (k < j)%nat /\ s !! j = Some 62.

(** ** More of the popup: clicks on the document *)

(** The element a click lands on, as far as the handler looks at it: its
    classes, its [href], its [data-time] attribute where it has one, and
    the [data-id] of the closest [.session-loader] around it, where there
    is one ([None] inside stands for an element without [data-id]). *)
Record clickTarget : Type := ClickTarget {
  classList : list jsstring;
  href : jsstring;
  dataTime : option jsstring;
  sessionLoader : option (option jsstring)
}.

(** What the click handler sets off. *)
Inductive clickAction : Type :=
| TabsCreate (url : jsstring)
| SetCurrentTime (s : jsnum)
| LoadSpecificSession (id : option jsstring).

(** [classList.contains(token)] *)
Definition contains (token : jsstring) (classes : list jsstring) : bool :=
  existsb (fun c => bool_decide (c = token)) classes.

(** The click handler of the document.  [tab] is the URL of the active
    tab, where there is one.  [getAttribute] gives [null] for a missing
    attribute, which [parseInt] reads as the string [null]. *)
Definition documentClick (target : clickTarget) (tab : option jsstring) : list clickAction :=
  if contains (lit "history-video-link") (classList target) then
    [TabsCreate (href target)]
  else if contains (lit "time-link") (classList target) then
    let seconds := parseInt (propertyKey (dataTime target)) in
    match tab with
    | Some url =>
        if includes (lit "youtube.com/watch") url then [SetCurrentTime seconds] else []
    | None => []
    end
  else
    match sessionLoader target with
    | Some id => [LoadSpecificSession id]
    | None => []
    end.

(** A number a double holds exactly and prints without an exponent. *)
Definition exactNumber (x : jsnum) : Prop :=
  match x with
  | NaN => True
  | Int z => (Z.abs z < 2 ^ 53)%Z
  | Infinity _ => False
  end.

(** ** More of the popup: the token and the opening of the popup *)

(** The click handler of [saveTokenBtn]: the token it writes to the store
    under [hfToken], or [None] when it writes nothing. *)
Definition saveTokenClick (value : jsstring) : option jsstring :=
  match trim value with
  | [] => None
  | token => Some token
  end.




(** No unit the pieces copy starts a timestamp. *)
Fixpoint covered (ps : list piece) : Prop :=
  match ps with
  | [] => True
  | Plain c :: ps' =>
      (forall T rest, timestampForm T -> c :: flat_map pieceText ps' <> T ++ rest) /\
      covered ps'
  | Link _ _ _ :: ps' => covered ps'
  end.

(** * Properties *)

(** ** Character classes *)

Ltac class_step :=
  match goal with
  | |- context [N.leb ?a ?b] => destruct (N.leb_spec a b)
  | |- context [N.eqb ?a ?b] => destruct (N.eqb_spec a b)
  | |- context [N.ltb ?a ?b] => destruct (N.ltb_spec a b)
  | H : context [N.leb ?a ?b] |- _ => destruct (N.leb_spec a b)
  | H : context [N.eqb ?a ?b] |- _ => destruct (N.eqb_spec a b)
  | H : context [N.ltb ?a ?b] |- _ => destruct (N.ltb_spec a b)
  end.

Ltac class_cases :=
  repeat (class_step; cbn [andb orb negb] in *);
  try congruence; try lia.

Lemma isDigit_range c : isDigit c = true <-> 48 <= c <= 57.
Proof. unfold isDigit. split; intros H; class_cases. Qed.

Lemma digit_not_space c : isDigit c = true -> isWhiteSpace c = false.
Proof. rewrite isDigit_range. intros H. unfold isWhiteSpace. class_cases. Qed.

Lemma digit_value c : isDigit c = true -> digitValue 10 c = Some (c - 48).
Proof. rewrite isDigit_range. intros H. unfold digitValue. class_cases. Qed.

(** ** Doubles *)

Lemma toDouble_exact z : (Z.abs z < 2 ^ 53)%Z -> toDouble z = Int z.
Proof.
  intros H. unfold toDouble. destruct (Z.ltb_spec (Z.abs z) (2 ^ 53)) as [_|Hge]; [reflexivity|].
  exfalso. apply (Z.lt_irrefl (Z.abs z)). eapply Z.lt_le_trans; [exact H|exact Hge].
Qed.

Lemma jsadd_exact x y :
  (Z.abs (x + y) < 2 ^ 53)%Z -> jsadd (Int x) (Int y) = Int (x + y).
Proof. apply toDouble_exact. Qed.

Lemma jsmul_exact x y :
  (Z.abs (x * y) < 2 ^ 53)%Z -> jsmul (Int x) (Int y) = Int (x * y).
Proof. apply toDouble_exact. Qed.

(** Sums and products that stay below 2^53 are exact. *)
Ltac below_2_53 :=
  change (2 ^ 53)%Z with 9007199254740992%Z;
  change (2 ^ 53) with 9007199254740992 in *;
  lia.

Ltac exact_arith :=
  change (Math_pow 60 0) with (Int 1);
  change (Math_pow 60 1) with (Int 60);
  change (Math_pow 60 2) with (Int 3600);
  repeat first [ rewrite jsmul_exact by below_2_53
               | rewrite jsadd_exact by below_2_53 ].


(** Up to 2^54 + 1 the double nearest to an integer is at most one off,
    and an even integer below 2^54 is a double. *)
Lemma toDouble_near z :
  (0 <= z <= 2 ^ 54 + 1)%Z ->
  exists v, toDouble z = Int v /\ (Z.abs (v - z) <= 1)%Z /\
            (Z.even z = true -> z < 2 ^ 54 -> v = z)%Z.
Proof.
  intros [Hz Hmax].
  destruct (Z.lt_ge_cases z (2 ^ 53)) as [Hlow|Hhigh].
  - exists z. rewrite toDouble_exact by (rewrite Z.abs_eq; assumption).
    split; [reflexivity|]. split; [lia|auto].
  - destruct (Z.lt_ge_cases z (2 ^ 54)) as [Hmid|Htop].
    + assert (Hlog : Z.log2 z = 53%Z) by (apply Z.log2_unique; [lia|split; assumption]).
      unfold toDouble. rewrite (Z.abs_eq z Hz), Hlog.
      destruct (Z.ltb_spec z (2 ^ 53)) as [Hbad|_]; [lia|].
      change (2 ^ (53 - 52))%Z with 2%Z. change (2 ^ (53 - 52 - 1))%Z with 1%Z.
      pose proof (Z.div_mod z 2 ltac:(lia)) as Hdiv.
      pose proof (Z.mod_pos_bound z 2 ltac:(lia)) as Hmod.
      rewrite (Z.sgn_pos z) by lia.
      assert (Heven : Z.even z = true -> (z mod 2 = 0)%Z).
      { intros He. apply Zeven_bool_iff, Zeven_ex_iff in He as [k ->].
        rewrite Z.mul_comm. apply Z.mod_mul. lia. }
      change (2 ^ 54)%Z with 18014398509481984%Z in *.
      change (2 ^ 53)%Z with 9007199254740992%Z in *.
      remember (z / 2)%Z as q. remember (z mod 2)%Z as r.
      assert (Hsmall : forall v, (v <= 18014398509481984)%Z -> (2 ^ 1024 <=? v)%Z = false).
      { intros v Hv. apply Z.leb_gt. eapply Z.le_lt_trans; [exact Hv|reflexivity]. }
      destruct (Z.ltb_spec r 1) as [Hr|Hr].
      * rewrite Hsmall by lia. eexists. split; [reflexivity|]. split; lia.
      * destruct (Z.ltb_spec 1 r) as [Hr'|Hr']; [lia|].
        destruct (Z.even q); rewrite Hsmall by lia;
          (eexists; split; [reflexivity|]; split; [lia|]);
          intros He; specialize (Heven He); lia.
    + assert (Hcases : z = (2 ^ 54)%Z \/ z = (2 ^ 54 + 1)%Z) by lia.
      destruct Hcases as [-> | ->]; eexists; (split; [vm_compute; reflexivity|]);
        split; vm_compute; try discriminate; intros _ H; discriminate H.
Qed.

(** ** Decimal numerals *)

Lemma readDigits_digits s a :
  digits s ->
  readDigits 10 s (Some a) = Some (fold_left (fun a c => a * 10 + (c - 48)) s a).
Proof.
  intros Hs. revert a. induction Hs as [|c s Hc _ IH]; intros a; [reflexivity|].
  simpl. rewrite (digit_value c Hc). apply IH.
Qed.

Lemma readDigits_numeral c s :
  digits (c :: s) -> readDigits 10 (c :: s) None = Some (numeral (c :: s)).
Proof.
  intros Hs. inversion Hs as [|? ? Hc Hs']; subst.
  simpl. rewrite (digit_value c Hc), (readDigits_digits s _ Hs'). reflexivity.
Qed.

(** On a numeral [parseInt] has nothing to strip: no white space, no sign,
    and after a leading zero there is a digit, not an [x]. *)
Lemma parseInt_digits c s :
  digits (c :: s) -> parseInt (c :: s) = toDouble (Z.of_N (numeral (c :: s))).
Proof.
  intros Hs. pose proof (readDigits_numeral c s Hs) as Hr.
  inversion Hs as [|? ? Hc Hs']; subst.
  unfold parseInt. cbn [trimStart]. rewrite (digit_not_space c Hc).
  apply isDigit_range in Hc.
  destruct (N.eqb_spec c 45); [lia|]. destruct (N.eqb_spec c 43); [lia|].
  destruct s as [|b s].
  - rewrite Hr. f_equal. lia.
  - inversion Hs' as [|? ? Hb _]; subst. apply isDigit_range in Hb.
    destruct (N.eqb_spec b 120); [lia|]. destruct (N.eqb_spec b 88); [lia|].
    rewrite andb_false_r, Hr. f_equal. lia.
Qed.

Lemma parseInt_exact c s :
  digits (c :: s) -> numeral (c :: s) < 2 ^ 53 ->
  parseInt (c :: s) = Int (Z.of_N (numeral (c :: s))).
Proof.
  intros Hs Hn. rewrite (parseInt_digits c s Hs). apply toDouble_exact.
  rewrite Z.abs_eq by lia. change (2 ^ 53)%Z with (Z.of_N (2 ^ 53)). lia.
Qed.

Lemma decimalDigits_S fuel n :
  decimalDigits (S fuel) n =
  if n <? 10 then [48 + n] else decimalDigits fuel (n / 10) ++ [48 + n mod 10].
Proof. reflexivity. Qed.

Lemma decimalDigits_spec fuel n :
  n < 2 ^ N.of_nat (S fuel) ->
  digits (decimalDigits (S fuel) n) /\ decimalDigits (S fuel) n <> [] /\
  numeral (decimalDigits (S fuel) n) = n.
Proof.
  revert n. induction fuel as [|fuel IH]; intros n Hn;
    rewrite decimalDigits_S; destruct (N.ltb_spec n 10) as [Hlt|Hge].
  1, 3: repeat split; [|discriminate|unfold numeral; simpl; lia];
    constructor; [|constructor]; apply isDigit_range; lia.
  - change (2 ^ N.of_nat 1) with 2 in Hn. lia.
  - assert (Hdiv : n / 10 < 2 ^ N.of_nat (S fuel)).
    { rewrite (Nat2N.inj_succ (S fuel)), N.pow_succ_r' in Hn.
      apply N.Div0.div_lt_upper_bound.
      generalize dependent (2 ^ N.of_nat (S fuel)). intros; lia. }
    destruct (IH _ Hdiv) as (Hd & Hne & Hv).
    repeat split.
    + apply Forall_app. split; [exact Hd|].
      constructor; [|constructor]. apply isDigit_range.
      pose proof (N.mod_upper_bound n 10 ltac:(lia)) as Hmod. clear - Hmod.
      generalize dependent (n mod 10). intros; lia.
    + intros Heq. apply app_eq_nil in Heq. destruct Heq; discriminate.
    + unfold numeral in *. rewrite fold_left_app, Hv. simpl.
      pose proof (N.Div0.div_mod n 10) as Hmod. clear - Hmod.
      generalize dependent (n mod 10). generalize dependent (n / 10). intros; lia.
Qed.

Lemma decimal_spec n :
  digits (decimal n) /\ decimal n <> [] /\ numeral (decimal n) = n.
Proof.
  apply decimalDigits_spec. rewrite Nat2N.inj_succ, N2Nat.id.
  destruct n as [|p]; [reflexivity|].
  apply N.log2_spec. lia.
Qed.

Lemma pad2_spec n :
  digits (pad2 n) /\ pad2 n <> [] /\ numeral (pad2 n) = n.
Proof.
  destruct (decimal_spec n) as (Hd & Hne & Hv). unfold pad2.
  destruct (n <? 10); [|auto].
  repeat split; [|discriminate|].
  - constructor; [reflexivity|exact Hd].
  - unfold numeral in *. simpl. exact Hv.
Qed.

Lemma parseInt_pad2 n : n < 2 ^ 53 -> parseInt (pad2 n) = Int (Z.of_N n).
Proof.
  intros Hn. destruct (pad2_spec n) as (Hd & Hne & Hv).
  destruct (pad2 n) as [|c s]; [congruence|].
  rewrite (parseInt_exact c s Hd), Hv; [reflexivity|]. rewrite Hv. exact Hn.
Qed.

(** ** Splitting at colons *)

Lemma digits_no_colon s : digits s -> Forall (fun c => (c =? 58) = false) s.
Proof.
  intros Hs. eapply Forall_impl; [exact Hs|]. simpl.
  intros c Hc. apply isDigit_range in Hc. apply N.eqb_neq. lia.
Qed.

Lemma split_whole sep s :
  Forall (fun c => (c =? sep) = false) s -> split sep s = [s].
Proof.
  induction 1 as [|c s Hc _ IH]; [reflexivity|].
  simpl. rewrite Hc, IH. reflexivity.
Qed.

Lemma split_app sep a b :
  Forall (fun c => (c =? sep) = false) a ->
  split sep (a ++ sep :: b) = a :: split sep b.
Proof.
  induction 1 as [|c s Hc _ IH]; simpl.
  - rewrite N.eqb_refl. reflexivity.
  - rewrite Hc, IH. reflexivity.
Qed.

(** ** C1: the citation label and its inverse *)

Example parse_125 : timestampToSeconds (lit "02:05") = Int 125.
Proof. reflexivity. Qed.

Example parse_hms : timestampToSeconds (lit "1:02:05") = Int 3725.
Proof. reflexivity. Qed.

Example parse_junk : timestampToSeconds (lit "ab:05") = NaN.
Proof. reflexivity. Qed.

Example label_3725 : map_to_citation 3725 = lit "01:02:05".
Proof. reflexivity. Qed.

Example label_59 : map_to_citation 59 = lit "00:59".
Proof. reflexivity. Qed.

Example label_100h : map_to_citation 360000 = lit "100:00:00".
Proof. reflexivity. Qed.

(** The label has no hour field exactly when the hour component is zero. *)
Lemma map_to_citation_fields d :
  split 58 (map_to_citation d) =
  if d / 3600 =? 0 then [pad2 (d mod 3600 / 60); pad2 (d mod 60)]
  else [pad2 (d / 3600); pad2 (d mod 3600 / 60); pad2 (d mod 60)].
Proof.
  unfold map_to_citation.
  destruct (pad2_spec (d / 3600)) as (Hh & _ & _).
  destruct (pad2_spec (d mod 3600 / 60)) as (Hm & _ & _).
  destruct (pad2_spec (d mod 60)) as (Hs & _ & _).
  apply digits_no_colon in Hh, Hm, Hs.
  destruct (d / 3600 =? 0); simpl.
  - rewrite (split_app 58 _ _ Hm), (split_whole 58 _ Hs). reflexivity.
  - rewrite (split_app 58 _ _ Hh), (split_app 58 _ _ Hm), (split_whole 58 _ Hs).
    reflexivity.
Qed.

(** C1, amended.  For every duration [d] in whole seconds below 2^53,
    [timestampToSeconds] applied to the canonical label of [d] ([MM:SS]
    when the hour component is zero, [HH:MM:SS] otherwise) is exactly [d];
    for every duration up to 2^54 + 1 it is a number at most one second
    off. *)
Theorem citation_round_trip (d : N) :
  (d < 2 ^ 53 -> timestampToSeconds (map_to_citation d) = Int (Z.of_N d)) /\
  (d <= 2 ^ 54 + 1 ->
   exists z, timestampToSeconds (map_to_citation d) = Int z /\
             (Z.abs (z - Z.of_N d) <= 1)%Z).
Proof.
  unfold timestampToSeconds. rewrite map_to_citation_fields.
  pose proof (N.Div0.div_mod d 3600) as Hd.
  pose proof (N.Div0.div_mod (d mod 3600) 60) as Hm.
  pose proof (N.mod_upper_bound (d mod 3600) 60 ltac:(lia)) as Hsec.
  pose proof (N.mod_upper_bound d 3600 ltac:(lia)) as Hrem.
  assert (Hs : d mod 60 = (d mod 3600) mod 60).
  { symmetry. change 3600 with (60 * 60). rewrite N.Div0.mod_mul_r.
    rewrite N.mul_comm, N.Div0.mod_add. apply N.Div0.mod_mod. }
  rewrite <- Hs in Hm, Hsec. clear Hs.
  remember (d / 3600) as h eqn:Eh. remember (d mod 3600) as r eqn:Er.
  remember (r / 60) as m eqn:Em. remember (d mod 60) as sec eqn:Es.
  clear Eh Er Em Es. split.
  - intros Hbound.
    destruct (N.eqb_spec h 0) as [Hz|Hnz];
      cbn [rev app sumParts];
      rewrite !parseInt_pad2 by below_2_53;
      exact_arith; f_equal; lia.
  - intros Hbound. change (2 ^ 54 + 1) with 18014398509481985 in Hbound.
    destruct (N.eqb_spec h 0) as [Hz|Hnz]; cbn [rev app sumParts].
    + rewrite !parseInt_pad2 by below_2_53. exact_arith.
      eexists. split; [reflexivity|]. lia.
    + rewrite !parseInt_pad2 by below_2_53. exact_arith.
      destruct (toDouble_near (Z.of_N h * 3600)) as (hv & Hhv & _ & Heven).
      { change (2 ^ 54 + 1)%Z with 18014398509481985%Z. lia. }
      assert (Hexact : hv = (Z.of_N h * 3600)%Z).
      { apply Heven; [rewrite Z.even_mul; apply orb_true_r|].
        change (2 ^ 54)%Z with 18014398509481984%Z. lia. }
      subst hv. unfold jsmul. rewrite Hhv. unfold jsadd.
      destruct (toDouble_near (0 + Z.of_N sec * 1 + Z.of_N m * 60 + Z.of_N h * 3600))
        as (v & Hv & Hnear & _).
      { change (2 ^ 54 + 1)%Z with 18014398509481985%Z. lia. }
      exists v. split; [exact Hv|].
      replace (Z.of_N d) with (0 + Z.of_N sec * 1 + Z.of_N m * 60 + Z.of_N h * 3600)%Z by lia.
      exact Hnear.
Qed.

(** C1, as stated for every duration, fails: above 2^53 the sums of
    [timestampToSeconds] are rounded as doubles are.  The label of
    2^54 + 2 seconds, [5003999585967:13:06], is read back as 2^54: not the
    duration, and more than one second off.  Already the label of 2^53 + 1
    seconds is read back as 2^53, no longer exactly. *)
Lemma citation_drifts_above_2_53 :
  map_to_citation (2 ^ 54 + 2) = lit "5003999585967:13:06" /\
  timestampToSeconds (map_to_citation (2 ^ 54 + 2)) = Int (2 ^ 54) /\
  timestampToSeconds (map_to_citation (2 ^ 54 + 2)) <> Int (Z.of_N (2 ^ 54 + 2)) /\
  ~ (Z.abs (2 ^ 54 - Z.of_N (2 ^ 54 + 2)) <= 1)%Z /\
  timestampToSeconds (map_to_citation (2 ^ 53 + 1)) = Int (2 ^ 53).
Proof.
  split; [vm_compute; reflexivity|]. split; [vm_compute; reflexivity|].
  split; [vm_compute; congruence|]. split; [vm_compute; congruence|].
  vm_compute; reflexivity.
Qed.

Lemma citation_round_trip_witness :
  timestampToSeconds (map_to_citation 3725) = Int 3725 /\
  exists z, timestampToSeconds (map_to_citation (2 ^ 54 + 1)) = Int z /\
            (Z.abs (z - Z.of_N (2 ^ 54 + 1)) <= 1)%Z.
Proof.
  split.
  - apply (proj1 (citation_round_trip 3725)). reflexivity.
  - apply (proj2 (citation_round_trip (2 ^ 54 + 1))). reflexivity.
Defined.

(** ** The matcher *)

Lemma flat_map_ext_In {A B} (f g : A -> list B) l :
  (forall a, In a l -> f a = g a) -> flat_map f l = flat_map g l.
Proof.
  induction l as [|a l IH]; intros H; [reflexivity|].
  simpl. rewrite (H a) by (left; reflexivity).
  rewrite IH; [reflexivity|]. intros b Hb. apply H. right. exact Hb.
Qed.


Lemma follows_refl input x : follows input x x.
Proof. repeat split; auto. Qed.

Lemma follows_trans input x y z :
  follows input x y -> follows input y z -> follows input x z.
Proof. unfold follows. intros (? & ? & ?) (? & ? & ?). repeat split; auto; lia. Qed.

Lemma star_follows input step :
  (forall x y, In y (step x) -> follows input x y) ->
  forall fuel x y, In y (star fuel step x) -> follows input x y.
Proof.
  intros Hstep. induction fuel as [|fuel IH]; intros x y Hy; simpl in Hy.
  - destruct Hy as [<-|[]]. apply follows_refl.
  - apply in_app_iff in Hy. destruct Hy as [Hy|[<-|[]]]; [|apply follows_refl].
    apply in_flat_map in Hy. destruct Hy as (z & Hz & Hy).
    destruct (endIndex x <? endIndex z)%nat; [|destruct Hy].
    eapply follows_trans; [apply Hstep; exact Hz|apply IH; exact Hy].
Qed.

Lemma run_follows input r :
  forall x y, In y (run input r x) -> follows input x y.
Proof.
  induction r as [p|r1 IH1 r2 IH2|r1 IH1|r1 IH1|n r1 IH1]; intros x y Hy; cbn [run] in Hy.
  - destruct (input !! endIndex x) as [c|] eqn:Hc; [|destruct Hy].
    destruct (p c); [|destruct Hy]. destruct Hy as [<-|[]].
    apply lookup_lt_Some in Hc. unfold follows, capsOk. simpl.
    repeat split; [lia|lia|].
    intros H. eapply Forall_impl; [exact H|]. simpl. intros; lia.
  - apply in_flat_map in Hy. destruct Hy as (z & Hz & Hy).
    eapply follows_trans; [apply IH1; exact Hz|apply IH2; exact Hy].
  - apply in_app_iff in Hy. destruct Hy as [Hy|[<-|[]]]; [|apply follows_refl].
    apply in_flat_map in Hy. destruct Hy as (z & Hz & Hy).
    unfold progress in Hy. destruct (endIndex x <? endIndex z)%nat; [|destruct Hy].
    destruct Hy as [<-|[]]. apply IH1. exact Hz.
  - eapply star_follows; [|exact Hy]. exact IH1.
  - apply in_map_iff in Hy. destruct Hy as (z & <- & Hz).
    destruct (IH1 _ _ Hz) as (Hle & Hlen & Hcaps).
    unfold follows, capsOk, setCapture. simpl. repeat split; [lia|exact Hlen|].
    intros H. constructor; [simpl; lia|]. apply Hcaps. exact H.
Qed.

(** Fuel beyond the input that is left does not change [star]. *)
Lemma star_ext (L : nat) step1 step2 :
  (forall x, (endIndex x <= L)%nat ->
             step1 x = step2 x /\ Forall (fun y => (endIndex y <= L)%nat) (step2 x)) ->
  forall f1 f2 x,
    (endIndex x <= L)%nat -> (L - endIndex x < f1)%nat -> (L - endIndex x < f2)%nat ->
    star f1 step1 x = star f2 step2 x.
Proof.
  intros Hstep. induction f1 as [|f1 IH]; intros f2 x Hx H1 H2; [lia|].
  destruct f2 as [|f2]; [lia|]. simpl.
  destruct (Hstep x Hx) as (-> & Hall). f_equal.
  apply flat_map_ext_In. intros y Hy.
  rewrite Forall_forall in Hall. 
  assert (Hyin : y ∈ step2 x) by (apply list_elem_of_In; exact Hy).
  specialize (Hall y Hyin).
  destruct (Nat.ltb_spec (endIndex x) (endIndex y)); [|reflexivity].
  apply IH; lia.
Qed.

(** *** Stoppers *)


(** *** Inputs alike for the pattern *)

Lemma star_ext_all step1 step2 :
  (forall x, step1 x = step2 x) ->
  forall fuel x, star fuel step1 x = star fuel step2 x.
Proof.
  intros Hstep. induction fuel as [|fuel IH]; intros x; [reflexivity|].
  simpl. rewrite Hstep. f_equal. apply flat_map_ext_In. intros y _.
  rewrite IH. reflexivity.
Qed.

(** The matcher sees of the input only which classes its units are in. *)
Lemma run_ext (R : N -> N -> Prop) (s1 s2 : jsstring) r :
  respects R r -> Forall2 R s1 s2 ->
  forall x, run s1 r x = run s2 r x.
Proof.
  intros Hr H12. induction r as [p|r1 IH1 r2 IH2|r1 IH1|r1 IH1|n r1 IH1];
    cbn [run respects] in Hr |- *; intros x.
  - destruct (s1 !! endIndex x) as [a|] eqn:Ha.
    + destruct (Forall2_lookup_l _ _ _ _ _ H12 Ha) as (b & -> & Hab).
      rewrite (Hr a b Hab). reflexivity.
    + assert (s2 !! endIndex x = None) as ->; [|reflexivity].
      apply lookup_ge_None. apply lookup_ge_None in Ha.
      rewrite <- (Forall2_length _ _ _ H12). exact Ha.
  - destruct Hr as (Hr1 & Hr2). rewrite IH1 by assumption.
    apply flat_map_ext_In. intros y _. apply IH2. exact Hr2.
  - rewrite IH1 by assumption. reflexivity.
  - rewrite (Forall2_length _ _ _ H12). apply star_ext_all. apply IH1. exact Hr.
  - rewrite IH1 by assumption. reflexivity.
Qed.


(** ** The scan of [replace] *)

Lemma getCapture_In n caps range :
  getCapture n caps = Some range -> In (n, range) caps.
Proof.
  induction caps as [|[k rg] caps IH]; simpl; [discriminate|].
  destruct (Nat.eqb_spec k n) as [->|_].
  - intros [= ->]. left. reflexivity.
  - intros H. right. apply IH. exact H.
Qed.

Lemma substring_app a b (u t : jsstring) :
  (b <= length u)%nat -> substring a b (u ++ t) = substring a b u.
Proof.
  intros Hb. unfold substring. rewrite drop_app, take_app.
  rewrite length_drop. replace (b - a - (length u - a))%nat with 0%nat by lia.
  rewrite take_0, app_nil_r. reflexivity.
Qed.

(** What an attempt from index 0 ends with lies within the input, its first
    group too. *)
Lemma run_within r (u : jsstring) x :
  In x (run u r (MState 0 [])) ->
  (endIndex x <= length u)%nat /\
  forall t, group 1 (u ++ t) x = group 1 u x.
Proof.
  intros Hin.
  destruct (run_follows u r _ _ Hin) as (_ & Hlen & Hcaps).
  simpl in Hlen. specialize (Hlen ltac:(lia)).
  split; [exact Hlen|]. intros t. unfold group.
  destruct (getCapture 1 (captures x)) as [[a b]|] eqn:Hc; [|reflexivity].
  apply getCapture_In in Hc.
  assert (Hok : capsOk x) by (apply Hcaps; constructor).
  unfold capsOk in Hok. rewrite Forall_forall in Hok.
  assert (Hc' : (1%nat, (a, b)) ∈ captures x) by (apply list_elem_of_In; exact Hc).
  specialize (Hok _ Hc'). simpl in Hok.
  apply substring_app. lia.
Qed.

Lemma exec_In r (u : jsstring) x :
  exec r u = Some x -> In x (run u r (MState 0 [])).
Proof.
  unfold exec. destruct (run u r (MState 0 [])) as [|y l]; [discriminate|].
  intros [= ->]. left. reflexivity.
Qed.

Lemma exec_within r (u : jsstring) x :
  exec r u = Some x ->
  (endIndex x <= length u)%nat /\
  forall t, group 1 (u ++ t) x = group 1 u x.
Proof. intros Hx. apply (run_within r), exec_In, Hx. Qed.

Section Scan.

Variable r : regex.
Variable callback : jsstring -> jsstring -> jsstring.

Lemma replaceFrom_miss a s :
  exec r (a :: s) = None ->
  replaceFrom r callback 0 (a :: s) = a :: replaceFrom r callback 0 s.
Proof. intros H. simpl. rewrite H. reflexivity. Qed.

(** Past a match the scan goes on behind it. *)
Lemma replaceFrom_skip m post :
  replaceFrom r callback (length m) (m ++ post) = replaceFrom r callback 0 post.
Proof. induction m as [|a m IH]; [reflexivity|]. simpl. exact IH. Qed.

Lemma replaceFrom_hit a m post x :
  exec r (a :: m ++ post) = Some x ->
  endIndex x = S (length m) ->
  replaceFrom r callback 0 (a :: m ++ post) =
  callback (a :: m) (group 1 (a :: m ++ post) x) ++ replaceFrom r callback 0 post.
Proof.
  intros Hx He. cbn [replaceFrom]. rewrite Hx, He.
  rewrite replaceFrom_skip. f_equal. f_equal.
  cbn [take]. f_equal. rewrite take_app_length. reflexivity.
Qed.

(** A unit at which attempts from the text before it stop splits the
    scan in two. *)
Variable c : N.
Hypothesis exec_stop :
  forall u t, u <> [] -> exec r (u ++ c :: t) = exec r u.
Hypothesis exec_nil : exec r [] = None.


End Scan.

(** ** The link pattern *)

Lemma exec_link_nil : exec linkRegex [] = None.
Proof. reflexivity. Qed.

Lemma run_Chr_miss input p x :
  (forall c, input !! endIndex x = Some c -> p c = false) ->
  run input (Chr p) x = [].
Proof.
  intros H. cbn [run]. destruct (input !! endIndex x) as [c|]; [|reflexivity].
  rewrite (H c eq_refl). reflexivity.
Qed.

Lemma run_Chr_hit input p x c :
  input !! endIndex x = Some c -> p c = true ->
  run input (Chr p) x = [advance x].
Proof. intros H Hp. cbn [run]. rewrite H, Hp. reflexivity. Qed.

Lemma run_Opt_Chr_miss input p x :
  (forall c, input !! endIndex x = Some c -> p c = false) ->
  run input (Opt (Chr p)) x = [x].
Proof. intros H. cbn [run]. fold (run input (Chr p) x). rewrite run_Chr_miss by exact H. reflexivity. Qed.


(** The body of the pattern needs a digit where it starts. *)
Lemma run_linkBody_miss input x :
  (forall c, input !! endIndex x = Some c -> isDigit c = false) ->
  run input linkBody x = [].
Proof.
  intros H. unfold linkBody, timestampPattern. cbn [run].
  fold (run input (Chr isDigit) x). rewrite run_Chr_miss by exact H. reflexivity.
Qed.





(** *** Timestamps and their markers *)

Lemma alike_refl a : alike a a.
Proof. left. reflexivity. Qed.

Lemma alike_digit a : isDigit a = true -> alike a 48.
Proof. intros H. right. split; [exact H|reflexivity]. Qed.

Ltac class_facts :=
  rewrite ?negb_true_iff in *;
  repeat match goal with
         | H : _ = false |- _ => apply not_true_iff_false in H
         | |- _ = false => apply not_true_iff_false
         end;
  unfold isColon, isDash, isOpen, isClose, isWhiteSpace, isDigit in *;
  repeat (progress rewrite ?andb_true_iff, ?orb_true_iff, ?N.leb_le, ?N.eqb_eq in * );
  lia.

Lemma respects_link : respects alike linkRegex.
Proof.
  unfold linkRegex, linkBody, linkTail, linkRange, timestampPattern.
  cbn [respects].
  repeat split; intros a b [->|[Ha Hb]]; try reflexivity;
    apply isDigit_range in Ha, Hb;
    first [ transitivity true; [|symmetry]; class_facts
          | transitivity false; [|symmetry]; class_facts ].
Qed.


Lemma respects_timestamp n : respects alike (Grp n timestampPattern).
Proof.
  pose proof respects_link as H.
  unfold linkRegex, linkBody in *. cbn [respects] in *. tauto.
Qed.

Lemma run_alike u u0 r x L :
  respects alike r -> Forall2 alike u u0 -> run u0 r x = L -> run u r x = L.
Proof. intros Hr H <-. apply (run_ext alike); assumption. Qed.



Lemma rejects_timestamp c n :
  isDigit c = false -> isColon c = false -> rejects c (Grp n timestampPattern).
Proof.
  intros H1 H2. unfold timestampPattern. cbn [rejects]. repeat split; assumption.
Qed.

Lemma run_Cat_step input r1 r2 x :
  run input (Cat r1 r2) x = flat_map (run input r2) (run input r1 x).
Proof. reflexivity. Qed.


(** *** Markers that end in a closing bracket *)



(** ** C2: markers become links *)

Ltac digit_hyps :=
  unfold digits in *;
  repeat match goal with
         | H : Forall _ (_ :: _) |- _ => inversion H; clear H; subst
         | H : Forall _ [] |- _ => clear H
         end.

Ltac alike_list :=
  repeat first
    [ apply List.Forall2_nil
    | apply List.Forall2_cons;
      [ first [ apply alike_digit; assumption | apply alike_refl ] | ] ].

Ltac run_by_classes Hr :=
  eapply run_alike; [apply Hr | alike_list | vm_compute; reflexivity].

Ltac step_handler :=
  cbv beta iota zeta delta
    [bind ret throw tryCatch finally emit gets modify fetch
     setCurrentSessionId setChatContainer setQuestionValue setQuestionDisabled
     setAskDisabled setResyncDisabled setActiveTab addBubble removeBubble
     appendMessage executeScript surgicalExtract showAnswer replay
     truthy andb orb negb fst snd app List.filter
     outcome after effects requests storageCalls
     currentSessionId chatContainer nextBubble questionValue questionDisabled
     askDisabled resyncDisabled activeTab bubbleId];
  rewrite ?Nat.eqb_refl.

Ltac run_handler := repeat (progress step_handler).




(** ** C3: a page without transcript segments *)


(** ** C4: the records of the scraper *)

Lemma trimmedOr_None fallback : trimmedOr None fallback = fallback.
Proof. reflexivity. Qed.

Lemma trimmedOr_nonempty content fallback :
  fallback <> [] -> trimmedOr content fallback <> [].
Proof.
  intros Hf. unfold trimmedOr. destruct content as [t|]; [|exact Hf].
  destruct (trim t); [exact Hf|discriminate].
Qed.

(** C4.  Every record [surgicalExtract] emits comes from the node at its
    index; without a timestamp element its [time] is [0:00], without a text
    element its [text] is empty, and its [time] is never empty. *)
Theorem surgicalExtract_records (segments : list segmentNode)
    (records : list transcriptRecord) :
  surgicalExtract segments = Some records ->
  length records = length segments /\
  forall (i : nat) (node : segmentNode),
    segments !! i = Some node ->
    exists r, records !! i = Some r /\
      (segmentTimestamp node = None -> time r = lit "0:00") /\
      (segmentText node = None -> text r = []) /\
      time r <> [].
Proof.
  unfold surgicalExtract. intros H.
  assert (Hr : records =
               map (fun s => TranscriptRecord (trimmedOr (segmentTimestamp s) (lit "0:00"))
                                              (trimmedOr (segmentText s) [])) segments).
  { destruct segments; [discriminate|]. injection H as <-. reflexivity. }
  subst records. split; [apply length_map|].
  intros i node Hi.
  exists (TranscriptRecord (trimmedOr (segmentTimestamp node) (lit "0:00"))
                           (trimmedOr (segmentText node) [])).
  split.
  - change (map ?f segments) with (f <$> segments).
    rewrite list_lookup_fmap, Hi. reflexivity.
  - cbn [time text]. repeat split.
    + intros ->. reflexivity.
    + intros ->. reflexivity.
    + apply trimmedOr_nonempty. discriminate.
Qed.

(** ** C6: the chat request *)

(** C6.  Every request the ask handler sends goes to [/chat] with a body of
    exactly the trimmed question and a mode, [detailed] when the box is
    checked and [concise] otherwise. *)
Theorem ask_request (isDetailed : bool) (hfToken : option jsstring) (reply : fetched)
    (p : popup) :
  let res := askClick isDetailed hfToken reply p in
  let question := trim (questionValue p) in
  let mode := if isDetailed then lit "detailed" else lit "concise" in
  forall path headers body,
    In (Fetch path headers body) (effects res) ->
    path = "/chat"%string /\
    body = Some (JObj [("question"%string, JStr question); ("mode"%string, JStr mode)]) /\
    (mode = lit "detailed" \/ mode = lit "concise").
Proof.
  intros res question mode path headers body Hin.
  assert (Hmode : mode = lit "detailed" \/ mode = lit "concise")
    by (subst mode; destruct isDetailed; auto).
  assert (Hreq : requests (effects res) = [] \/
                 requests (effects res) =
                   [Fetch "/chat" (chatHeaders (propertyKey hfToken))
                          (Some (chatBody question isDetailed))]).
  { subst res question. unfold askClick.
    destruct p as [cur chat next qv qd ad rd tab]. run_handler.
    destruct (trim qv) as [|q uestion]; [left; reflexivity|].
    destruct hfToken as [[|t oken]|]; run_handler; [left; reflexivity| |left; reflexivity].
    right.
    destruct cur as [[|c0 cur]|];
      (destruct reply as [|[|] [data|]]; run_handler; try reflexivity;
       destruct data as [| | | | |fields]; run_handler; try reflexivity;
       destruct (field "answer" fields) as [[|[|]|[|z|z]|[|c s]|items|fields']|];
       run_handler; reflexivity). }
  assert (Hin' : In (Fetch path headers body) (requests (effects res))).
  { unfold requests. apply filter_In. split; [exact Hin|reflexivity]. }
  destruct Hreq as [Hreq|Hreq]; rewrite Hreq in Hin'; [destruct Hin'|].
  destruct Hin' as [[= <- <- <-]|[]].
  split; [reflexivity|]. split; [reflexivity|exact Hmode].
Qed.

(** ** C8: what a session record holds *)

(** C8.  The record the resync callback writes, into whatever sessions
    the store holds and under an id that is new or not, holds the
    timestamp, the video URL, an empty chat history and the transcript, and
    the other records stay as they are.  The callback of [appendMessage]
    rewrites an existing record with the same video URL and transcript, the
    message appended to the chat history and the timestamp renewed, leaves
    the other records alone, and writes nothing when the current session
    has no record.  [appendMessage] with [shouldSave] hands the message to
    the store when there is a current session. *)
Theorem session_record_kept (m : chatMessage) (current : option jsstring)
    (now : jsstring) (sessions : gmap jsstring session) :
  (forall url transcript,
     exists written,
       resync_store url transcript current now sessions = Some written /\
       written !! propertyKey current = Some (Session now url [] transcript) /\
       forall id, id <> propertyKey current -> written !! id = sessions !! id) /\
  (forall s,
     sessions !! propertyKey current = Some s ->
     exists sessions',
       appendMessage_store m current now sessions = Some sessions' /\
       sessions' !! propertyKey current =
         Some (Session now (videoUrl s) (chatHistory s ++ [m]) (transcriptData s)) /\
       forall id, id <> propertyKey current -> sessions' !! id = sessions !! id) /\
  (sessions !! propertyKey current = None ->
   appendMessage_store m current now sessions = None) /\
  (forall p tw,
     effects (appendMessage (sender m) (messageText m) (isHTML m) tw true p) =
     if truthy (currentSessionId p) then [StorageGet (StoreMessage m)] else []).
Proof.
  split; [|split; [|split]].
  - intros url transcript. eexists. split; [reflexivity|].
    split; [apply lookup_insert_eq|].
    intros id Hid. apply lookup_insert_ne. congruence.
  - intros s Hs. unfold appendMessage_store. rewrite Hs. eexists. split; [reflexivity|].
    split; [apply lookup_insert_eq|].
    intros id Hid. apply lookup_insert_ne. congruence.
  - intros Hs. unfold appendMessage_store. rewrite Hs. reflexivity.
  - intros p tw. destruct m as [sd tx h]. destruct p as [cur chat next qv qd ad rd tab].
    destruct cur as [[|c0 cur]|]; reflexivity.
Qed.

(** ** C9: a clear whose request fails *)

(** C9.  When the [/clear_context] request of [performFullClear] is
    rejected, nothing is handed to the store, so the saved sessions stay as
    they are, and [currentSessionId] and the two inputs keep their values. *)
Theorem clear_failure_keeps_sessions (confirmed : bool) (p : popup) :
  let res := performFullClear confirmed Rejected p in
  storageCalls (effects res) = [] /\
  currentSessionId (after res) = currentSessionId p /\
  questionDisabled (after res) = questionDisabled p /\
  askDisabled (after res) = askDisabled p.
Proof.
  intros res. subst res. unfold performFullClear.
  destruct p as [cur chat next qv qd ad rd tab].
  destruct cur as [[|c0 cur]|]; destruct confirmed; run_handler;
    repeat split; reflexivity.
Qed.

(** A response that is not ok does not reject the request: the handler
    goes on and resets the popup. *)
Example clear_after_error_status :
  let p := Popup (Some (lit "1762164000000")) [] 0 [] false false false "tab-chat" in
  let res := performFullClear true (Resolved false None) p in
  storageCalls (effects res) = [StorageGet StoreDeleteCurrent] /\
  currentSessionId (after res) = None /\
  questionDisabled (after res) = true.
Proof. repeat split; reflexivity. Qed.

(** ** C10: clearing the selected sessions *)

Lemma delete_all_lookup (selected : list jsstring) :
  forall (sessions : gmap jsstring session) (id : jsstring),
    fold_left (fun acc k => delete k acc) selected sessions !! id =
    if decide (id ∈ selected) then None else sessions !! id.
Proof.
  induction selected as [|k selected IH]; intros sessions id; cbn [fold_left].
  - destruct (decide (id ∈ [])) as [H|_]; [|reflexivity].
    apply elem_of_nil in H. destruct H.
  - rewrite IH. destruct (decide (id ∈ selected)) as [Hin|Hout].
    + rewrite decide_True by (right; exact Hin). reflexivity.
    + destruct (decide (id = k)) as [->|Hne].
      * rewrite decide_True by left. apply lookup_delete_eq.
      * rewrite decide_False by (rewrite elem_of_cons; tauto).
        apply lookup_delete_ne. congruence.
Qed.

(** C10.  [clearSelectedHistory] with no box checked does nothing; with
    some checked it hands one callback to the store, which writes back the
    sessions without exactly the selected ids: a selected id is gone, every
    other id maps to what it did. *)
Theorem clearSelectedHistory_exact (selected : list jsstring)
    (sessions : gmap jsstring session) (p : popup) :
  effects (clearSelectedHistory selected p) =
    match selected with
    | [] => []
    | _ => [StorageGet (StoreDeleteSelected selected)]
    end /\
  after (clearSelectedHistory selected p) = p /\
  exists sessions',
    clearSelectedHistory_store selected sessions = Some sessions' /\
    forall id : jsstring,
      sessions' !! id = if decide (id ∈ selected) then None else sessions !! id.
Proof.
  repeat split.
  - destruct selected; reflexivity.
  - destruct selected; reflexivity.
  - eexists. split; [reflexivity|]. apply delete_all_lookup.
Qed.

(** ** C2 and C7: markers and links *)

Lemma startsWith_app needle behind : startsWith needle (needle ++ behind) = true.
Proof.
  induction needle as [|a needle IH]; [destruct behind; reflexivity|].
  simpl. rewrite N.eqb_refl, IH. reflexivity.
Qed.

Lemma includes_unfold needle haystack :
  includes needle haystack =
  startsWith needle haystack ||
  match haystack with
  | [] => false
  | _ :: haystack' => includes needle haystack'
  end.
Proof. destruct haystack; reflexivity. Qed.

Lemma includes_infix needle before behind :
  includes needle (before ++ needle ++ behind) = true.
Proof.
  induction before as [|a before IH].
  - rewrite includes_unfold. cbn [app]. rewrite startsWith_app. reflexivity.
  - rewrite includes_unfold. cbn [app]. rewrite IH. apply orb_true_r.
Qed.

Example linkify_mixed :
  linkifyTimestamps (lit "see [01:05] and (1:00 - 2:00) or 3:45, x123:456") =
  lit "see " ++ timeLink (Int 65) (lit "[01:05]") ++ lit " and " ++
  timeLink (Int 60) (lit "(1:00 - 2:00)") ++ lit " or " ++
  timeLink (Int 225) (lit "3:45") ++ lit ", x1" ++
  timeLink (Int 1425) (lit "23:45") ++ lit "6".
Proof. vm_compute. reflexivity. Qed.

Example linkify_absorbs_bracket :
  linkifyTimestamps (lit "(see 1:30)") =
  lit "(see " ++ timeLink (Int 90) (lit "1:30)").
Proof. vm_compute. reflexivity. Qed.

Example linkify_four_fields :
  linkifyTimestamps (lit "12:34:56:78") =
  timeLink (Int 45296) (lit "12:34:56") ++ lit ":78".
Proof. vm_compute. reflexivity. Qed.

Example linkify_dangling_range :
  linkifyTimestamps (lit "[1:23 - x") = timeLink (Int 83) (lit "[1:23") ++ lit " - x".
Proof. vm_compute. reflexivity. Qed.

Example linkify_short_seconds : linkifyTimestamps (lit "at 1:2.") = lit "at 1:2.".
Proof. vm_compute. reflexivity. Qed.

Example linkify_after_colon :
  linkifyTimestamps (lit "Chapters: 1:23, 4:56 and 1:02:03.") =
  lit "Chapters: " ++ timeLink (Int 83) (lit "1:23") ++ lit ", " ++
  timeLink (Int 296) (lit "4:56") ++ lit " and " ++
  timeLink (Int 3723) (lit "1:02:03") ++ lit ".".
Proof. vm_compute. reflexivity. Qed.

(** The seconds of a timestamp of two or three numerals, where they stay
    below 2^53. *)
Lemma timestampToSeconds_two c ms d ss :
  digits (c :: ms) -> digits (d :: ss) ->
  60 * numeral (c :: ms) + numeral (d :: ss) < 2 ^ 53 ->
  timestampToSeconds ((c :: ms) ++ 58 :: d :: ss) =
  Int (Z.of_N (60 * numeral (c :: ms) + numeral (d :: ss))).
Proof.
  intros Hm Hs Hbound. unfold timestampToSeconds.
  rewrite (split_app 58 _ _ (digits_no_colon _ Hm)).
  rewrite (split_whole 58 _ (digits_no_colon _ Hs)).
  cbn [rev app sumParts].
  rewrite (parseInt_exact _ _ Hm), (parseInt_exact _ _ Hs) by below_2_53.
  exact_arith. f_equal. lia.
Qed.

Lemma timestampToSeconds_three b hs c ms d ss :
  digits (b :: hs) -> digits (c :: ms) -> digits (d :: ss) ->
  3600 * numeral (b :: hs) + 60 * numeral (c :: ms) + numeral (d :: ss) < 2 ^ 53 ->
  timestampToSeconds ((b :: hs) ++ 58 :: (c :: ms) ++ 58 :: d :: ss) =
  Int (Z.of_N (3600 * numeral (b :: hs) + 60 * numeral (c :: ms) + numeral (d :: ss))).
Proof.
  intros Hh Hm Hs Hbound. unfold timestampToSeconds.
  rewrite (split_app 58 _ _ (digits_no_colon _ Hh)).
  rewrite (split_app 58 _ _ (digits_no_colon _ Hm)).
  rewrite (split_whole 58 _ (digits_no_colon _ Hs)).
  cbn [rev app sumParts].
  rewrite (parseInt_exact _ _ Hh), (parseInt_exact _ _ Hm), (parseInt_exact _ _ Hs)
    by below_2_53.
  exact_arith. f_equal. lia.
Qed.

(** The start timestamp of a marker is a number of seconds, never NaN. *)
Lemma timestampForm_seconds T :
  timestampForm T -> exists n : N, timestampToSeconds T = Int (Z.of_N n).
Proof.
  intros [a b c H|a a' b c H|a b c d e H|a a' b c d e H]; digit_hyps;
    repeat match goal with
           | H : isDigit _ = true |- _ => apply isDigit_range in H
           end;
    eexists.
  - apply (timestampToSeconds_two a [] b [c]);
      [repeat constructor; apply isDigit_range; assumption ..|].
    unfold numeral. cbn [fold_left]. below_2_53.
  - apply (timestampToSeconds_two a [a'] b [c]);
      [repeat constructor; apply isDigit_range; assumption ..|].
    unfold numeral. cbn [fold_left]. below_2_53.
  - apply (timestampToSeconds_three a [] b [c] d [e]);
      [repeat constructor; apply isDigit_range; assumption ..|].
    unfold numeral. cbn [fold_left]. below_2_53.
  - apply (timestampToSeconds_three a [a'] b [c] d [e]);
      [repeat constructor; apply isDigit_range; assumption ..|].
    unfold numeral. cbn [fold_left]. below_2_53.
Qed.

(** ** Instances *)


Lemma surgicalExtract_records_witness :
  let segments := [SegmentNode None None;
                   SegmentNode (Some (lit " 0:05 ")) (Some (lit "topic A begins"))] in
  let records := [TranscriptRecord (lit "0:00") [];
                  TranscriptRecord (lit "0:05") (lit "topic A begins")] in
  surgicalExtract segments = Some records /\
  length records = length segments.
Proof.
  intros segments records. split; [reflexivity|].
  apply (surgicalExtract_records segments records). reflexivity.
Defined.


Lemma ask_request_witness :
  let p := Popup None [] 0 (lit "  what is topic A?  ") false false false "tab-chat" in
  let request :=
    Fetch "/chat" (chatHeaders (lit "hf_token"))
          (Some (chatBody (lit "what is topic A?") true)) in
  In request (effects (askClick true (Some (lit "hf_token")) Rejected p)) /\
  Some (chatBody (lit "what is topic A?") true) =
    Some (JObj [("question"%string, JStr (trim (questionValue p)));
                ("mode"%string, JStr (lit "detailed"))]).
Proof.
  intros p request.
  assert (Hin : In request (effects (askClick true (Some (lit "hf_token")) Rejected p)))
    by (left; reflexivity).
  split; [exact Hin|].
  exact (proj1 (proj2 (ask_request true (Some (lit "hf_token")) Rejected p _ _ _ Hin))).
Defined.

Lemma session_record_kept_witness :
  (exists written,
     resync_store watchUrl [TranscriptRecord (lit "0:00") (lit "intro")]
                  (Some (lit "1762164060000")) (lit "11/3/2026, 10:01:00 AM")
                  oneSession = Some written /\
     written !! lit "1762164060000" =
       Some (Session (lit "11/3/2026, 10:01:00 AM") watchUrl []
                     [TranscriptRecord (lit "0:00") (lit "intro")]) /\
     written !! lit "1762164000000" = Some savedSession) /\
  (exists sessions',
     appendMessage_store (ChatMessage (lit "ai") (lit "because") true)
                         (Some (lit "1762164000000")) (lit "11/3/2026, 10:01:00 AM")
                         oneSession = Some sessions' /\
     sessions' !! lit "1762164000000" =
       Some (Session (lit "11/3/2026, 10:01:00 AM") watchUrl
                     (chatHistory savedSession ++ [ChatMessage (lit "ai") (lit "because") true])
                     (transcriptData savedSession))).
Proof.
  split.
  - destruct (session_record_kept (ChatMessage (lit "ai") (lit "because") true)
                (Some (lit "1762164060000")) (lit "11/3/2026, 10:01:00 AM") oneSession)
      as (Hnew & _).
    destruct (Hnew watchUrl [TranscriptRecord (lit "0:00") (lit "intro")])
      as (written & Hw & Hl & Hother).
    exists written. split; [exact Hw|]. split; [exact Hl|].
    rewrite Hother by discriminate. apply lookup_singleton_eq.
  - destruct (session_record_kept (ChatMessage (lit "ai") (lit "because") true)
                (Some (lit "1762164000000")) (lit "11/3/2026, 10:01:00 AM") oneSession)
      as (_ & Hold & _).
    destruct (Hold savedSession (lookup_singleton_eq _ _)) as (sessions' & Hw & Hl & _).
    exists sessions'. split; [exact Hw|exact Hl].
Defined.

(** * Further properties *)

(** ** The matcher is sound for the pattern *)

Lemma substring_empty i (s : jsstring) : substring i i s = [].
Proof. unfold substring. rewrite Nat.sub_diag. apply take_0. Qed.

Lemma substring_split i j k (s : jsstring) :
  (i <= j)%nat -> (j <= k)%nat ->
  substring i k s = substring i j s ++ substring j k s.
Proof.
  intros Hij Hjk. unfold substring.
  replace (k - i)%nat with ((j - i) + (k - j))%nat by lia.
  rewrite <- take_take_drop, drop_drop.
  replace (i + (j - i))%nat with j by lia. reflexivity.
Qed.

Lemma substring_unit i c (s : jsstring) :
  s !! i = Some c -> substring i (S i) s = [c].
Proof.
  intros H. unfold substring. rewrite (drop_S _ _ _ H).
  replace (S i - i)%nat with 1%nat by lia. reflexivity.
Qed.

Lemma star_sound input step r :
  (forall x y, In y (step x) -> (endIndex x <= length input)%nat ->
               lang r (substring (endIndex x) (endIndex y) input) /\ follows input x y) ->
  forall fuel x y,
    In y (star fuel step x) -> (endIndex x <= length input)%nat ->
    lang (Star r) (substring (endIndex x) (endIndex y) input) /\ follows input x y.
Proof.
  intros Hstep. induction fuel as [|fuel IH]; intros x y Hy Hx; cbn [star] in Hy.
  - destruct Hy as [<-|[]]. rewrite substring_empty.
    split; [constructor|apply follows_refl].
  - apply in_app_iff in Hy. destruct Hy as [Hy|[<-|[]]].
    2:{ rewrite substring_empty. split; [constructor|apply follows_refl]. }
    apply in_flat_map in Hy. destruct Hy as (z & Hz & Hy).
    destruct (endIndex x <? endIndex z)%nat; [|destruct Hy].
    destruct (Hstep x z Hz Hx) as (Hl1 & Hf1).
    assert (Hzb : (endIndex z <= length input)%nat) by (apply Hf1; exact Hx).
    destruct (IH z y Hy Hzb) as (Hl2 & Hf2).
    split; [|eapply follows_trans; eassumption].
    rewrite (substring_split _ (endIndex z)) by (apply Hf1 || apply Hf2).
    constructor; assumption.
Qed.

(** What the matcher consumes between two states is a string of the
    pattern. *)
Lemma run_sound input r :
  forall x y,
    In y (run input r x) -> (endIndex x <= length input)%nat ->
    lang r (substring (endIndex x) (endIndex y) input).
Proof.
  induction r as [p|r1 IH1 r2 IH2|r1 IH1|r1 IH1|n r1 IH1]; intros x y Hy Hx.
  - cbn [run] in Hy. destruct (input !! endIndex x) as [c|] eqn:Hc; [|destruct Hy].
    destruct (p c) eqn:Hp; [|destruct Hy]. destruct Hy as [<-|[]].
    cbn [advance endIndex]. rewrite (substring_unit _ c) by exact Hc.
    constructor. exact Hp.
  - cbn [run] in Hy. apply in_flat_map in Hy. destruct Hy as (z & Hz & Hy).
    pose proof (run_follows input r1 x z Hz) as (H1 & H1' & _).
    pose proof (run_follows input r2 z y Hy) as (H2 & _).
    rewrite (substring_split _ (endIndex z)) by assumption.
    constructor; [apply IH1; assumption|apply IH2; auto].
  - cbn [run] in Hy. apply in_app_iff in Hy. destruct Hy as [Hy|[<-|[]]].
    2:{ rewrite substring_empty. constructor. }
    apply in_flat_map in Hy. destruct Hy as (z & Hz & Hy).
    unfold progress in Hy. destruct (endIndex x <? endIndex z)%nat; [|destruct Hy].
    destruct Hy as [<-|[]]. apply lang_Opt_some. apply IH1; assumption.
  - cbn [run] in Hy.
    apply (star_sound input (run input r1) r1) in Hy; [apply Hy| |exact Hx].
    intros x' y' Hy' Hx'. split; [apply IH1; assumption|].
    apply (run_follows input r1 x' y' Hy').
  - cbn [run] in Hy. apply in_map_iff in Hy. destruct Hy as (z & <- & Hz).
    cbn [setCapture endIndex]. constructor. apply IH1; assumption.
Qed.

Lemma star_invariant (Q : mstate -> Prop) step :
  (forall x y, In y (step x) -> Q x -> Q y) ->
  forall fuel x y, In y (star fuel step x) -> Q x -> Q y.
Proof.
  intros Hstep. induction fuel as [|fuel IH]; intros x y Hy Hx; cbn [star] in Hy.
  - destruct Hy as [<-|[]]. exact Hx.
  - apply in_app_iff in Hy. destruct Hy as [Hy|[<-|[]]]; [|exact Hx].
    apply in_flat_map in Hy. destruct Hy as (z & Hz & Hy).
    destruct (endIndex x <? endIndex z)%nat; [|destruct Hy].
    apply (IH z y Hy). apply (Hstep x z Hz Hx).
Qed.

(** A pattern leaves the groups it does not have as they are. *)
Lemma run_other_group n input r :
  noGroup n r ->
  forall x y, In y (run input r x) ->
              getCapture n (captures y) = getCapture n (captures x).
Proof.
  induction r as [p|r1 IH1 r2 IH2|r1 IH1|r1 IH1|k r1 IH1];
    cbn [noGroup]; intros Hr x y Hy; cbn [run] in Hy.
  - destruct (input !! endIndex x) as [c|]; [|destruct Hy].
    destruct (p c); [|destruct Hy]. destruct Hy as [<-|[]]. reflexivity.
  - destruct Hr as (Hr1 & Hr2).
    apply in_flat_map in Hy. destruct Hy as (z & Hz & Hy).
    rewrite (IH2 Hr2 z y Hy). apply (IH1 Hr1 x z Hz).
  - apply in_app_iff in Hy. destruct Hy as [Hy|[<-|[]]]; [|reflexivity].
    apply in_flat_map in Hy. destruct Hy as (z & Hz & Hy).
    unfold progress in Hy. destruct (endIndex x <? endIndex z)%nat; [|destruct Hy].
    destruct Hy as [<-|[]]. apply (IH1 Hr x z Hz).
  - refine (star_invariant
              (fun s => getCapture n (captures s) = getCapture n (captures x))
              (run input r1) _ _ x y Hy eq_refl).
    intros x' y' Hy' Hx'. rewrite (IH1 Hr x' y' Hy'). exact Hx'.
  - destruct Hr as (Hk & Hr). apply in_map_iff in Hy. destruct Hy as (z & <- & Hz).
    cbn [setCapture captures getCapture].
    destruct (Nat.eqb_spec k n); [congruence|]. apply (IH1 Hr x z Hz).
Qed.

(** The strings of the timestamp pattern are the timestamps. *)
Lemma lang_timestamp s : lang timestampPattern s -> timestampForm s.
Proof.
  unfold timestampPattern. intros H.
  repeat match goal with
         | H : lang (Cat _ _) _ |- _ => inversion H; subst; clear H
         | H : lang (Chr _) _ |- _ => inversion H; subst; clear H
         | H : lang (Opt _) _ |- _ => inversion H; subst; clear H
         end;
    repeat match goal with
           | H : isColon _ = true |- _ => apply N.eqb_eq in H; subst
           end;
    cbn [app];
    [ apply M_SS | apply M_SS_SS | apply MM_SS | apply MM_SS_SS ];
    repeat constructor; assumption.
Qed.

Lemma lang_blank s : lang (Star (Chr isWhiteSpace)) s -> blank s.
Proof.
  intros H. remember (Star (Chr isWhiteSpace)) as r eqn:Hr.
  induction H as [| | | | |r' s1 s2 H1 _ H2 IH2|]; try discriminate.
  - constructor.
  - injection Hr as ->. inversion H1; subst. constructor; [assumption|].
    apply IH2. reflexivity.
Qed.

(** The parts of a match of the link pattern: where its first group lies,
    and what stands before and behind it. *)
Lemma exec_link_parts text x :
  exec linkRegex text = Some x ->
  exists i j,
    (i <= j)%nat /\ (j <= endIndex x)%nat /\ (endIndex x <= length text)%nat /\
    lang (Opt (Chr isOpen)) (substring 0 i text) /\
    timestampForm (substring i j text) /\
    lang linkTail (substring j (endIndex x) text) /\
    getCapture 1 (captures x) = Some (i, j).
Proof.
  intros Hx. apply exec_In in Hx. fold start0 in Hx.
  unfold linkRegex, linkBody in Hx. cbn [run] in Hx.
  apply in_flat_map in Hx. destruct Hx as (y & Hy & Hx).
  change (In x (flat_map (run text linkTail)
                         (map (setCapture 1 (endIndex y)) (run text timestampPattern y)))) in Hx.
  apply in_flat_map in Hx. destruct Hx as (z & Hz & Hx).
  apply in_map_iff in Hz. destruct Hz as (z' & <- & Hz).
  change (In y (run text (Opt (Chr isOpen)) start0)) in Hy.
  destruct (run_follows text _ _ _ Hy) as (_ & Hyb & _).
  specialize (Hyb ltac:(simpl; lia)).
  destruct (run_follows text _ _ _ Hz) as (Hyz & Hzb & _). specialize (Hzb Hyb).
  destruct (run_follows text _ _ _ Hx) as (Hzx & Hxb & _).
  cbn [setCapture endIndex] in Hzx, Hxb. specialize (Hxb Hzb).
  exists (endIndex y), (endIndex z'). repeat split; try assumption.
  - apply (run_sound text _ start0 y Hy). simpl. lia.
  - apply lang_timestamp. apply (run_sound text _ y z' Hz Hyb).
  - apply (run_sound text linkTail _ x Hx). exact Hzb.
  - rewrite (run_other_group 1 text linkTail) with (2 := Hx); [reflexivity|].
    cbn. repeat split; discriminate.
Qed.

Lemma lang_linkTail t :
  lang linkTail t ->
  exists range closing,
    t = range ++ closing /\
    (range = [] \/
     exists W1 W2 T', blank W1 /\ blank W2 /\ timestampForm T' /\
                      range = W1 ++ [45] ++ W2 ++ T') /\
    (closing = [] \/ exists c, closing = [c] /\ isClose c = true).
Proof.
  unfold linkTail. intros H. inversion H as [|? ? range closing Hr Hc| | | | |]; subst.
  exists range, closing. split; [reflexivity|]. split.
  - inversion Hr as [| |?|? ? Hr'| | |]; subst; [left; reflexivity|right].
    unfold linkRange in Hr'.
    inversion Hr' as [|? ? W1 rest1 HW1 H1| | | | |]; subst.
    inversion H1 as [|? ? dash rest2 Hd H2| | | | |]; subst.
    inversion H2 as [|? ? W2 T' HW2 HT| | | | |]; subst.
    inversion Hd as [? d Hdash| | | | | |]; subst.
    inversion HT as [| | | | | |? ? ? HT']; subst.
    apply N.eqb_eq in Hdash. subst d.
    exists W1, W2, T'. repeat split; try (apply lang_blank; assumption).
    apply lang_timestamp. exact HT'.
  - inversion Hc as [| |?|? ? Hc'| | |]; subst; [left; reflexivity|right].
    inversion Hc' as [? c Hcl| | | | | |]; subst. exists c. split; [reflexivity|exact Hcl].
Qed.

(** Every match of the link pattern has the link shape around its first
    group. *)
Lemma exec_link_shape (text : jsstring) (x : mstate) :
  exec linkRegex text = Some x ->
  linkShape (take (endIndex x) text) (group 1 text x) /\
  (4 <= endIndex x <= length text)%nat.
Proof.
  intros Hx. destruct (exec_link_parts text x Hx) as (i & j & Hij & Hje & Hel & Ho & HT & Htl & Hg).
  assert (Hm : take (endIndex x) text =
               substring 0 i text ++ substring i j text ++ substring j (endIndex x) text).
  { rewrite <- (substring_split i j), <- (substring_split 0 i) by lia.
    unfold substring. rewrite Nat.sub_0_r. reflexivity. }
  assert (Hgroup : group 1 text x = substring i j text) by (unfold group; rewrite Hg; reflexivity).
  destruct (lang_linkTail _ Htl) as (range & closing & Ht & Hrange & Hclosing).
  split.
  - exists (substring 0 i text), range, closing. rewrite Hgroup, Hm, Ht.
    repeat split; try assumption.
    inversion Ho as [| |?|? ? Ho'| | |]; subst; [left; reflexivity|right].
    inversion Ho' as [? c Hc| | | | | |]; subst. exists c. split; [congruence|exact Hc].
  - split; [|exact Hel].
    assert (Hlen : (4 <= length (substring i j text))%nat)
      by (destruct HT; simpl; lia).
    unfold substring in Hlen. rewrite length_take in Hlen. lia.
Qed.

(** The decimal numeral has no leading zero. *)
Lemma decimalDigits_head fuel n :
  n < 2 ^ N.of_nat (S fuel) ->
  head (decimalDigits (S fuel) n) = Some 48 -> n = 0.
Proof.
  revert n. induction fuel as [|fuel IH]; intros n Hn;
    rewrite decimalDigits_S; destruct (N.ltb_spec n 10) as [Hlt|Hge].
  1, 3: cbn [head]; intros [= H]; lia.
  - change (2 ^ N.of_nat 1) with 2 in Hn. lia.
  - assert (Hdiv : n / 10 < 2 ^ N.of_nat (S fuel)).
    { rewrite (Nat2N.inj_succ (S fuel)), N.pow_succ_r' in Hn.
      apply N.Div0.div_lt_upper_bound.
      generalize dependent (2 ^ N.of_nat (S fuel)). intros; lia. }
    destruct (decimalDigits_spec fuel _ Hdiv) as (_ & Hne & _).
    destruct (decimalDigits (S fuel) (n / 10)) as [|d ds] eqn:E; [congruence|].
    cbn [app head]. intros Hd.
    assert (Hz : n / 10 = 0) by (apply IH; [exact Hdiv|rewrite E; exact Hd]).
    apply N.div_small_iff in Hz; lia.
Qed.

Lemma decimal_head n : head (decimal n) = Some 48 -> decimal n = [48].
Proof.
  intros Hhead. assert (Hn : n = 0).
  { apply (decimalDigits_head (N.to_nat (N.log2 n))); [|exact Hhead].
    rewrite Nat2N.inj_succ, N2Nat.id. destruct n as [|p]; [reflexivity|].
    apply N.log2_spec. lia. }
  subst n. reflexivity.
Qed.

(** The anchor of the callback, spelled out. *)
Lemma timeLink_spelled (n : N) (matched : jsstring) :
  timeLink (Int (Z.of_N n)) matched =
  lit "<a href=" ++ [34] ++ lit "#" ++ [34] ++
  lit " class=" ++ [34] ++ lit "time-link" ++ [34] ++
  lit " data-time=" ++ [34] ++ decimal n ++ [34] ++ lit ">" ++
  matched ++ lit "</a>".
Proof.
  unfold timeLink, numToString, dquote.
  destruct (Z.ltb_spec (Z.of_N n) 0) as [Hneg|_]; [lia|]. rewrite N2Z.id. reflexivity.
Qed.

(** What the callback makes of a match and its start timestamp. *)
Lemma linkCallback_spelled matched T :
  timestampForm T ->
  exists number,
    digits number /\ number <> [] /\ (head number = Some 48 -> number = [48]) /\
    timestampToSeconds T = Int (Z.of_N (numeral number)) /\
    linkCallback matched T = pieceLink (Link matched T number).
Proof.
  intros HT. destruct (timestampForm_seconds T HT) as (n & Hn).
  destruct (decimal_spec n) as (Hd & Hne & Hv).
  exists (decimal n). split; [exact Hd|]. split; [exact Hne|].
  split; [apply decimal_head|]. split; [rewrite Hv; exact Hn|].
  unfold linkCallback. rewrite Hn. apply timeLink_spelled.
Qed.

(** ** The matcher is complete for the pattern *)

Lemma star_more_fuel step : forall f1 f2 x z,
  (f1 <= f2)%nat -> In z (star f1 step x) -> In z (star f2 step x).
Proof.
  induction f1 as [|f1 IH]; intros f2 x z Hle Hin.
  - destruct Hin as [<-|[]]. destruct f2; cbn [star]; [left; reflexivity|].
    apply in_or_app. right. left. reflexivity.
  - destruct f2 as [|f2]; [lia|]. cbn [star] in *.
    apply in_app_or in Hin. apply in_or_app. destruct Hin as [Hin|Hin]; [left|right; exact Hin].
    apply in_flat_map in Hin as (y & Hy & Hz). apply in_flat_map. exists y. split; [exact Hy|].
    destruct (endIndex x <? endIndex y)%nat; [|destruct Hz]. apply (IH f2 y z); [lia|exact Hz].
Qed.

(** The string [s] stands at index [i] of [input]. *)
Lemma substring_here i (s input : jsstring) :
  (i <= length input)%nat ->
  substring i (i + length s) input = s -> (i + length s <= length input)%nat.
Proof.
  intros Hi H. apply (f_equal length) in H. unfold substring in H.
  rewrite length_take, length_drop in H. lia.
Qed.

Lemma run_complete input r s :
  lang r s ->
  forall x, (endIndex x <= length input)%nat ->
    substring (endIndex x) (endIndex x + length s) input = s ->
    exists y, In y (run input r x) /\ endIndex y = (endIndex x + length s)%nat.
Proof.
  induction 1 as [p c Hp|r1 r2 s1 s2 _ IH1 _ IH2|r|r s _ IH|r|r s1 s2 _ IH1 _ IH2|n r s _ IH];
    intros x Hx Hs.
  - cbn [run]. unfold substring in Hs. cbn [length] in Hs.
    replace (endIndex x + 1 - endIndex x)%nat with 1%nat in Hs by lia.
    destruct (drop (endIndex x) input) as [|c' t] eqn:E; [discriminate|].
    injection Hs as ->. 
    assert (Hc : input !! endIndex x = Some c).
    { rewrite <- (Nat.add_0_r (endIndex x)), <- lookup_drop, E. reflexivity. }
    rewrite Hc, Hp. exists (advance x). split; [left; reflexivity|]. cbn. lia.
  - pose proof (substring_here _ _ _ Hx Hs) as Hlen. rewrite length_app in Hs, Hlen.
    rewrite (substring_split _ (endIndex x + length s1)) in Hs by lia.
    apply app_inj_1 in Hs as [Hs1 Hs2].
    2:{ unfold substring. rewrite length_take, length_drop. lia. }
    destruct (IH1 x Hx Hs1) as (y & Hy & Hey).
    destruct (IH2 y) as (z & Hz & Hez); [lia|..].
    { rewrite Hey. rewrite <- Hs2 at 2. f_equal. lia. }
    exists z. split; [|rewrite length_app; lia]. cbn [run]. apply in_flat_map. exists y. split; assumption.
  - exists x. split; [|cbn; lia]. cbn [run]. apply in_or_app. right. left. reflexivity.
  - destruct (IH x Hx Hs) as (y & Hy & Hey). cbn [run].
    destruct s as [|c s].
    + exists x. split; [|cbn; lia]. apply in_or_app. right. left. reflexivity.
    + exists y. split; [|exact Hey]. apply in_or_app. left. apply in_flat_map.
      exists y. split; [exact Hy|]. unfold progress.
      destruct (Nat.ltb_spec (endIndex x) (endIndex y)) as [_|Hge]; [left; reflexivity|].
      cbn [length] in Hey. lia.
  - exists x. split; [|cbn; lia]. cbn [run star]. apply in_or_app. right. left. reflexivity.
  - pose proof (substring_here _ _ _ Hx Hs) as Hlen. rewrite length_app in Hs, Hlen.
    rewrite (substring_split _ (endIndex x + length s1)) in Hs by lia.
    apply app_inj_1 in Hs as [Hs1 Hs2].
    2:{ unfold substring. rewrite length_take, length_drop. lia. }
    destruct s1 as [|c s1].
    + apply (IH2 x Hx). cbn [length] in Hs2. rewrite Nat.add_0_r in Hs2.
      rewrite <- Hs2 at 2. f_equal.
    + destruct (IH1 x Hx Hs1) as (y & Hy & Hey).
      destruct (IH2 y) as (z & Hz & Hez); [cbn [length] in Hey, Hlen; lia|..].
      { rewrite Hey. rewrite <- Hs2 at 2. f_equal. lia. }
      exists z. split; [|rewrite length_app; lia]. cbn [run star].
      apply in_or_app. left. apply in_flat_map. exists y. split; [exact Hy|].
      cbn [length] in Hey, Hlen.
      destruct (Nat.ltb_spec (endIndex x) (endIndex y)) as [_|Hge]; [|lia].
      cbn [run] in Hz. eapply star_more_fuel; [|exact Hz]. lia.
  - destruct (IH x Hx Hs) as (y & Hy & Hey). cbn [run].
    exists (setCapture n (endIndex x) y). split; [|exact Hey].
    apply in_map. exact Hy.
Qed.

Lemma lang_digit c : isDigit c = true -> lang (Chr isDigit) [c].
Proof. apply lang_Chr. Qed.

Lemma lang_colon : lang (Chr isColon) [58].
Proof. apply lang_Chr. reflexivity. Qed.

Lemma timestamp_lang T : timestampForm T -> lang timestampPattern T.
Proof.
  intros HT. unfold timestampPattern.
  destruct HT as [a b c H|a a' b c H|a b c d e H|a a' b c d e H];
    repeat match goal with
           | H : digits (_ :: _) |- _ =>
               let Hd := fresh "Hd" in
               inversion H as [|? ? Hd ?]; subst; clear H
           | H : digits [] |- _ => clear H
           | H : Forall _ (_ :: _) |- _ =>
               let Hd := fresh "Hd" in
               inversion H as [|? ? Hd ?]; subst; clear H
           | H : Forall _ [] |- _ => clear H
           end.
  - apply (lang_Cat _ _ [a] [58; b; c]).
    + apply (lang_Cat _ _ [a] []); [apply lang_digit; assumption|apply lang_Opt_none].
    + apply (lang_Cat _ _ [58] [b; c]); [apply lang_colon|].
      apply (lang_Cat _ _ [b; c] []); [|apply lang_Opt_none].
      apply (lang_Cat _ _ [b] [c]); apply lang_digit; assumption.
  - apply (lang_Cat _ _ [a; a'] [58; b; c]).
    + apply (lang_Cat _ _ [a] [a']); [apply lang_digit; assumption|].
      apply lang_Opt_some, lang_digit. assumption.
    + apply (lang_Cat _ _ [58] [b; c]); [apply lang_colon|].
      apply (lang_Cat _ _ [b; c] []); [|apply lang_Opt_none].
      apply (lang_Cat _ _ [b] [c]); apply lang_digit; assumption.
  - apply (lang_Cat _ _ [a] [58; b; c; 58; d; e]).
    + apply (lang_Cat _ _ [a] []); [apply lang_digit; assumption|apply lang_Opt_none].
    + apply (lang_Cat _ _ [58] [b; c; 58; d; e]); [apply lang_colon|].
      apply (lang_Cat _ _ [b; c] [58; d; e]).
      * apply (lang_Cat _ _ [b] [c]); apply lang_digit; assumption.
      * apply lang_Opt_some. apply (lang_Cat _ _ [58] [d; e]); [apply lang_colon|].
        apply (lang_Cat _ _ [d] [e]); apply lang_digit; assumption.
  - apply (lang_Cat _ _ [a; a'] [58; b; c; 58; d; e]).
    + apply (lang_Cat _ _ [a] [a']); [apply lang_digit; assumption|].
      apply lang_Opt_some, lang_digit. assumption.
    + apply (lang_Cat _ _ [58] [b; c; 58; d; e]); [apply lang_colon|].
      apply (lang_Cat _ _ [b; c] [58; d; e]).
      * apply (lang_Cat _ _ [b] [c]); apply lang_digit; assumption.
      * apply lang_Opt_some. apply (lang_Cat _ _ [58] [d; e]); [apply lang_colon|].
        apply (lang_Cat _ _ [d] [e]); apply lang_digit; assumption.
Qed.

Lemma link_lang T : timestampForm T -> lang linkRegex T.
Proof.
  intros HT. unfold linkRegex, linkBody, linkTail.
  apply (lang_Cat _ _ [] T); [apply lang_Opt_none|].
  rewrite <- (app_nil_r T). apply lang_Cat; [apply lang_Grp, timestamp_lang, HT|].
  apply (lang_Cat _ _ [] []); apply lang_Opt_none.
Qed.

(** Where a timestamp starts, the pattern matches. *)
Lemma exec_link_timestamp T rest :
  timestampForm T -> exec linkRegex (T ++ rest) <> None.
Proof.
  intros HT. destruct (run_complete (T ++ rest) linkRegex T (link_lang T HT) start0)
    as (y & Hy & _).
  - cbn. lia.
  - unfold start0, substring. cbn [endIndex]. rewrite drop_0, Nat.add_0_l, Nat.sub_0_r.
    apply take_app_length.
  - unfold exec. fold start0. destruct (run (T ++ rest) linkRegex start0); [destruct Hy|].
    discriminate.
Qed.

Lemma scan_pieces (text : jsstring) :
  forall k, (k <= length text)%nat ->
  exists ps,
    flat_map pieceText ps = drop k text /\
    flat_map pieceLink ps = replaceFrom linkRegex linkCallback k text /\
    Forall pieceOk ps /\ covered ps.
Proof.
  induction text as [|c rest IH]; intros k Hk.
  - exists []. simpl in Hk. assert (k = 0%nat) as -> by lia.
    cbn [replaceFrom]. rewrite exec_link_nil. repeat split. constructor.
  - destruct k as [|k].
    + cbn [replaceFrom drop]. destruct (exec linkRegex (c :: rest)) as [x|] eqn:Hx.
      * destruct (exec_link_shape _ x Hx) as (Hshape & Hlow & Hhigh).
        destruct (endIndex x) as [|e] eqn:He; [lia|].
        simpl in Hhigh. destruct (IH e ltac:(lia)) as (ps & Htext & Hlink & Hok & Hcov).
        assert (HT : timestampForm (group 1 (c :: rest) x))
          by (destruct Hshape as (? & ? & ? & _ & HT & _); exact HT).
        destruct (linkCallback_spelled (take (S e) (c :: rest)) _ HT)
          as (number & Hd & Hne & Hzero & Hsec & Hcall).
        exists (Link (take (S e) (c :: rest)) (group 1 (c :: rest) x) number :: ps).
        cbn [flat_map pieceText covered]. rewrite Htext, Hlink, <- Hcall.
        split; [apply (take_drop (S e) (c :: rest))|]. split; [reflexivity|].
        split; [|exact Hcov]. constructor; [|exact Hok]. cbn [pieceOk].
        repeat split; assumption.
      * destruct (IH 0%nat ltac:(lia)) as (ps & Htext & Hlink & Hok & Hcov).
        exists (Plain c :: ps). cbn [flat_map pieceText pieceLink covered].
        rewrite Htext, Hlink. rewrite drop_0. repeat split; [| |exact Hcov].
        -- constructor; [exact I|exact Hok].
        -- intros T post HT Heq. cbn [app] in Heq.
           apply (exec_link_timestamp T post HT). rewrite <- Heq. exact Hx.
    + cbn [replaceFrom drop]. apply IH. simpl in Hk. lia.
Qed.

(** X1.  [linkifyTimestamps] only wraps: the text is a sequence of pieces,
    each a unit the function copies or a match it wraps, and the output is
    the same sequence with every match replaced by the anchor
    [<a href="#" class="time-link" data-time="N">match</a>], spelled out
    below with 34 for the double quote.  Every match has the shape of the
    pattern around its start timestamp; [N] is the decimal numeral, without
    leading zeros, of [timestampToSeconds] of that timestamp, a number that
    is never NaN; and no copied unit starts a timestamp, so every timestamp
    of the text begins inside an anchor. *)
Theorem linkify_pieces (text : jsstring) :
  exists ps,
    flat_map pieceText ps = text /\
    flat_map (fun p =>
                match p with
                | Plain c => [c]
                | Link matched _ number =>
                    lit "<a href=" ++ [34] ++ lit "#" ++ [34] ++
                    lit " class=" ++ [34] ++ lit "time-link" ++ [34] ++
                    lit " data-time=" ++ [34] ++ number ++ [34] ++ lit ">" ++
                    matched ++ lit "</a>"
                end) ps = linkifyTimestamps text /\
    Forall pieceOk ps /\ covered ps.
Proof.
  destruct (scan_pieces text 0 ltac:(lia)) as (ps & Htext & Hlink & Hok & Hcov).
  exists ps. rewrite drop_0 in Htext. auto.
Qed.

(** ** C2 and C7: markers and links *)

(** *** What the matcher sees of the text behind *)

Lemma filter_flat_map_within {A} (W : A -> bool) (inside : mstate -> bool)
    (f g : mstate -> list A) (l : list mstate) :
  (forall y, In y l -> inside y = true -> f y = List.filter W (g y)) ->
  (forall y, In y l -> inside y = false -> List.filter W (g y) = []) ->
  flat_map f (List.filter inside l) = List.filter W (flat_map g l).
Proof.
  induction l as [|y l IH]; intros Hin Hout; [reflexivity|].
  cbn [List.filter flat_map]. rewrite List.filter_app.
  assert (IH' : flat_map f (List.filter inside l) = List.filter W (flat_map g l)).
  { apply IH; intros z Hz; [apply Hin|apply Hout]; right; exact Hz. }
  destruct (inside y) eqn:Hy.
  - cbn [flat_map]. rewrite IH', (Hin y (or_introl eq_refl) Hy). reflexivity.
  - rewrite IH', (Hout y (or_introl eq_refl) Hy). reflexivity.
Qed.

Lemma filter_beyond (n : nat) (l : list mstate) :
  Forall (fun z => (n < endIndex z)%nat) l -> List.filter (within n) l = [].
Proof.
  induction 1 as [|z l Hz _ IH]; [reflexivity|]. cbn [List.filter]. unfold within at 1.
  destruct (Nat.leb_spec (endIndex z) n); [lia|exact IH].
Qed.

Lemma filter_within_all (n : nat) (l : list mstate) :
  Forall (fun z => (endIndex z <= n)%nat) l -> List.filter (within n) l = l.
Proof.
  induction 1 as [|z l Hz _ IH]; [reflexivity|]. cbn [List.filter]. unfold within at 1.
  destruct (Nat.leb_spec (endIndex z) n); [rewrite IH; reflexivity|lia].
Qed.

Lemma run_beyond input r (n : nat) x :
  (n < endIndex x)%nat -> List.filter (within n) (run input r x) = [].
Proof.
  intros Hx. apply filter_beyond. apply List.Forall_forall. intros z Hz.
  destruct (run_follows input r x z Hz) as (Hle & _). lia.
Qed.

Lemma star_beyond input r (n fuel : nat) x :
  (n < endIndex x)%nat -> List.filter (within n) (star fuel (run input r) x) = [].
Proof.
  intros Hx. apply filter_beyond. apply List.Forall_forall. intros z Hz.
  destruct (star_follows input (run input r) (run_follows input r) fuel x z Hz) as (Hle & _).
  lia.
Qed.

(** The iterations that stay within [n] are the iterations of the steps
    that stay within [n]. *)
Lemma star_within input r (n : nat) :
  forall fuel x, (endIndex x <= n)%nat ->
    star fuel (fun y => List.filter (within n) (run input r y)) x =
    List.filter (within n) (star fuel (run input r) x).
Proof.
  induction fuel as [|fuel IH]; intros x Hx.
  - cbn [star List.filter]. unfold within. destruct (Nat.leb_spec (endIndex x) n); [reflexivity|lia].
  - assert (Hw : within n x = true) by (apply Nat.leb_le; exact Hx).
    cbn [star]. rewrite List.filter_app. cbn [List.filter]. rewrite Hw. f_equal.
    apply filter_flat_map_within.
    + intros y _ Hy. unfold within in Hy. apply Nat.leb_le in Hy.
      destruct (endIndex x <? endIndex y)%nat; [apply IH; exact Hy|reflexivity].
    + intros y _ Hy. unfold within in Hy. apply Nat.leb_gt in Hy.
      destruct (endIndex x <? endIndex y)%nat; [apply star_beyond; exact Hy|reflexivity].
Qed.

(** A match attempt on a text that goes on: the ends within [u] are the
    ends the attempt reaches on [u] alone, in the same order. *)
Lemma run_prefix (u t : jsstring) r :
  forall x, (endIndex x <= length u)%nat ->
    run u r x = List.filter (within (length u)) (run (u ++ t) r x).
Proof.
  induction r as [p|r1 IH1 r2 IH2|r1 IH1|r1 IH1|n r1 IH1]; intros x Hx.
  - cbn [run]. destruct (Nat.eq_dec (endIndex x) (length u)) as [He|Hne].
    + rewrite (lookup_ge_None_2 u) by lia.
      destruct ((u ++ t) !! endIndex x) as [c|]; [|reflexivity].
      destruct (p c); [|reflexivity]. cbn [List.filter]. unfold within. cbn [advance endIndex].
      destruct (Nat.leb_spec (S (endIndex x)) (length u)); [lia|reflexivity].
    + rewrite lookup_app_l by lia. destruct (u !! endIndex x) as [c|]; [|reflexivity].
      destruct (p c); [|reflexivity]. cbn [List.filter]. unfold within. cbn [advance endIndex].
      destruct (Nat.leb_spec (S (endIndex x)) (length u)); [reflexivity|lia].
  - cbn [run]. rewrite (IH1 x Hx). apply filter_flat_map_within.
    + intros y _ Hy. apply IH2. apply Nat.leb_le. exact Hy.
    + intros y _ Hy. apply run_beyond. apply Nat.leb_gt. exact Hy.
  - assert (Hw : within (length u) x = true) by (apply Nat.leb_le; exact Hx).
    cbn [run]. rewrite List.filter_app. cbn [List.filter]. rewrite Hw. f_equal.
    rewrite (IH1 x Hx). apply filter_flat_map_within.
    + intros y _ Hy. unfold progress. destruct (endIndex x <? endIndex y)%nat; [|reflexivity].
      cbn [List.filter]. rewrite Hy. reflexivity.
    + intros y _ Hy. unfold progress. destruct (endIndex x <? endIndex y)%nat; [|reflexivity].
      cbn [List.filter]. rewrite Hy. reflexivity.
  - cbn [run]. rewrite <- star_within by exact Hx.
    apply (star_ext (length u)); [|exact Hx|lia|rewrite length_app; lia].
    intros y Hy. split; [apply IH1; exact Hy|].
    apply List.Forall_forall. intros z Hz. apply List.filter_In in Hz as [_ Hz].
    apply Nat.leb_le. exact Hz.
  - cbn [run]. rewrite (IH1 x Hx).
    induction (run (u ++ t) r1 x) as [|y l IHl]; [reflexivity|].
    cbn [List.filter map]. change (within (length u) (setCapture n (endIndex x) y))
      with (within (length u) y).
    destruct (within (length u) y); cbn [map]; rewrite IHl; reflexivity.
Qed.

(** Where the pattern cannot go on from [u], the text behind [u] changes
    nothing of the attempt at [u]. *)
Lemma run_local (u t : jsstring) :
  ends u t -> run (u ++ t) linkRegex start0 = run u linkRegex start0.
Proof.
  intros Hends. rewrite (run_prefix u t linkRegex start0) by (cbn; lia).
  symmetry. apply filter_within_all. apply List.Forall_forall. intros y Hy.
  destruct (Nat.le_gt_cases (endIndex y) (length u)) as [Hle|Hgt]; [exact Hle|]. exfalso.
  pose proof (run_sound (u ++ t) linkRegex start0 y Hy ltac:(cbn; lia)) as Hlang.
  destruct (run_follows (u ++ t) linkRegex start0 y Hy) as (_ & Hlen & _).
  specialize (Hlen ltac:(cbn; lia)). rewrite length_app in Hlen.
  unfold substring, start0 in Hlang. cbn [endIndex] in Hlang.
  rewrite drop_0, Nat.sub_0_r, take_app in Hlang.
  rewrite take_ge in Hlang by lia.
  apply (Hends (take (endIndex y - length u) t)); [|apply prefix_take|exact Hlang].
  intros Hnil. apply (f_equal length) in Hnil. rewrite length_take in Hnil. cbn in Hnil. lia.
Qed.

Lemma exec_local (u t : jsstring) :
  ends u t -> exec linkRegex (u ++ t) = exec linkRegex u.
Proof. intros Hends. unfold exec. fold start0. rewrite (run_local u t Hends). reflexivity. Qed.

(** *** The scan, match by match *)

Lemma linkify_miss a s :
  exec linkRegex (a :: s) = None -> linkifyTimestamps (a :: s) = a :: linkifyTimestamps s.
Proof. apply replaceFrom_miss. Qed.

Lemma linkify_hit (text : jsstring) x :
  exec linkRegex text = Some x ->
  linkifyTimestamps text =
  linkCallback (take (endIndex x) text) (group 1 text x) ++
  linkifyTimestamps (drop (endIndex x) text).
Proof.
  intros Hx. destruct (exec_link_shape text x Hx) as (_ & Hlow & Hhigh).
  destruct text as [|a s]; [cbn in Hhigh; lia|].
  destruct (endIndex x) as [|e] eqn:He; [lia|]. cbn [take drop].
  assert (Hs : s = take e s ++ drop e s) by (symmetry; apply take_drop).
  rewrite Hs at 1 2. unfold linkifyTimestamps, replace.
  rewrite <- Hs at 2.
  rewrite (replaceFrom_hit linkRegex linkCallback a (take e s) (drop e s) x).
  - rewrite <- Hs. reflexivity.
  - rewrite <- Hs. exact Hx.
  - rewrite He, length_take. cbn [length] in Hhigh. f_equal. lia.
Qed.

(** The text before a place into which no attempt reaches is linked on its
    own. *)
Lemma scan_apart (t : jsstring) :
  forall n pre, (length pre <= n)%nat ->
    (forall u, attempt pre u -> u <> [] -> ends u t) ->
    linkifyTimestamps (pre ++ t) = linkifyTimestamps pre ++ linkifyTimestamps t.
Proof.
  induction n as [|n IH]; intros pre Hn Hpre.
  - destruct pre; [reflexivity|cbn in Hn; lia].
  - destruct pre as [|a s]; [reflexivity|].
    pose proof (exec_local (a :: s) t (Hpre _ (attempt_here _) ltac:(discriminate))) as Hexec.
    destruct (exec linkRegex (a :: s)) as [x|] eqn:Hx.
    + destruct (exec_link_shape _ x Hx) as (_ & Hlow & Hhigh).
      destruct (exec_within _ _ _ Hx) as (_ & Hgroup).
      rewrite (linkify_hit _ x Hexec), (linkify_hit _ x Hx), Hgroup.
      rewrite take_app_le, drop_app_le by exact Hhigh.
      rewrite <- app_assoc. f_equal. apply IH.
      * rewrite length_drop. cbn [length] in *. lia.
      * intros u Hu. apply Hpre. apply (attempt_hit _ x); assumption.
    + change ((a :: s) ++ t) with (a :: (s ++ t)) in *.
      rewrite (linkify_miss _ _ Hexec), (linkify_miss _ _ Hx). cbn [app]. f_equal.
      apply IH; [cbn [length] in Hn; lia|].
      intros u Hu. apply Hpre. apply attempt_miss; assumption.
Qed.

(** Where the pattern cannot go on behind a timestamp, the match at the
    timestamp is the timestamp. *)
Lemma exec_alone T post :
  timestampForm T -> ends T post ->
  exists x, exec linkRegex (T ++ post) = Some x /\
            endIndex x = length T /\ group 1 T x = T.
Proof.
  intros HT Hends. rewrite (exec_local T post Hends). unfold exec. fold start0.
  destruct HT; digit_hyps;
    match goal with
    | |- context [run ?T linkRegex start0] =>
        let H := fresh "Hrun" in
        eassert (H : run T linkRegex start0 = _ :: _) by (run_by_classes respects_link);
        rewrite H
    end;
    eexists; (split; [reflexivity|split; reflexivity]).
Qed.

Lemma link_alone pre T post :
  timestampForm T -> alone pre T post ->
  linkifyTimestamps (pre ++ T ++ post) =
  linkifyTimestamps pre ++ linkCallback T T ++ linkifyTimestamps post.
Proof.
  intros HT [Hpre Hpost].
  rewrite (scan_apart (T ++ post) (length pre) pre (le_n _) Hpre). f_equal.
  destruct (exec_alone T post HT Hpost) as (x & Hx & He & Hg).
  destruct (exec_within _ _ _ (eq_trans (eq_sym (exec_local T post Hpost)) Hx)) as (_ & Hgroup).
  rewrite (linkify_hit _ x Hx), He, take_app_length, drop_app_length.
  rewrite Hgroup, Hg. reflexivity.
Qed.

(** *** Standing alone, computed *)

Lemma attemptsFrom_self text : In text (attemptsFrom 0 text).
Proof. destruct text; left; reflexivity. Qed.

Lemma attemptsFrom_drop (text : jsstring) k :
  (k <= length text)%nat ->
  attemptsFrom k text = attemptsFrom 0 (drop k text).
Proof.
  revert text. induction k as [|k IH]; intros text Hk; [rewrite drop_0; reflexivity|].
  destruct text as [|a s]; [cbn in Hk; lia|]. cbn [attemptsFrom drop]. apply IH.
  cbn in Hk. lia.
Qed.

Lemma attempt_attempts pre u : attempt pre u -> In u (attemptsFrom 0 pre).
Proof.
  induction 1 as [text|c rest u Hx _ IH|text x u Hx _ IH].
  - apply attemptsFrom_self.
  - cbn [attemptsFrom]. rewrite Hx. right. exact IH.
  - destruct (exec_link_shape text x Hx) as (_ & Hlow & Hhigh).
    destruct text as [|a s]; [cbn in Hhigh; lia|].
    cbn [attemptsFrom]. rewrite Hx. right.
    destruct (endIndex x) as [|e]; [lia|]. cbn [drop] in IH.
    rewrite attemptsFrom_drop by (cbn in Hhigh; lia). exact IH.
Qed.

(** The pattern cannot go on from [u] when the matcher reaches no end
    behind [u]. *)
Lemma endsb_ends u t : endsb u t = true -> ends u t.
Proof.
  unfold endsb. intros Hall v Hne [w ->] Hlang.
  destruct (run_complete (u ++ v ++ w) linkRegex (u ++ v) Hlang start0) as (y & Hy & He).
  - cbn. lia.
  - unfold substring, start0. cbn [endIndex]. rewrite drop_0, Nat.add_0_l, Nat.sub_0_r.
    rewrite app_assoc. apply take_app_length.
  - rewrite forallb_forall in Hall. specialize (Hall y Hy). unfold within in Hall.
    apply Nat.leb_le in Hall. cbn [start0 endIndex] in He. rewrite length_app in He.
    destruct v; [congruence|]. cbn [length] in He. lia.
Qed.

Lemma aloneb_alone pre T post : aloneb pre T post = true -> alone pre T post.
Proof.
  unfold aloneb. intros H. apply andb_true_iff in H as [Hpre Hpost].
  split; [|apply endsb_ends; exact Hpost].
  intros u Hu Hne. rewrite forallb_forall in Hpre.
  specialize (Hpre u (attempt_attempts pre u Hu)). destruct u; [congruence|].
  apply endsb_ends. exact Hpre.
Qed.

Lemma ends_endsb u t : ends u t -> endsb u t = true.
Proof.
  intros Hends. unfold endsb. apply forallb_forall. intros y Hy. unfold within. apply Nat.leb_le.
  destruct (Nat.le_gt_cases (endIndex y) (length u)) as [Hle|Hgt]; [exact Hle|]. exfalso.
  pose proof (run_sound (u ++ t) linkRegex start0 y Hy ltac:(cbn; lia)) as Hlang.
  destruct (run_follows (u ++ t) linkRegex start0 y Hy) as (_ & Hlen & _).
  specialize (Hlen ltac:(cbn; lia)). rewrite length_app in Hlen.
  unfold substring, start0 in Hlang. cbn [endIndex] in Hlang.
  rewrite drop_0, Nat.sub_0_r, take_app in Hlang.
  rewrite take_ge in Hlang by lia.
  apply (Hends (take (endIndex y - length u) t)); [|apply prefix_take|exact Hlang].
  intros Hnil. apply (f_equal length) in Hnil. rewrite length_take in Hnil. cbn in Hnil. lia.
Qed.

Lemma attempts_attempt text :
  forall k u, In u (attemptsFrom k text) -> attempt (drop k text) u.
Proof.
  induction text as [|c rest IH]; intros k u Hin.
  - rewrite drop_nil. destruct k; cbn in Hin; destruct Hin as [<-|[]]; constructor.
  - destruct k as [|k]; cbn [attemptsFrom] in Hin.
    + cbn [drop]. destruct Hin as [<-|Hin]; [constructor|].
      destruct (exec linkRegex (c :: rest)) as [x|] eqn:Hx.
      * destruct (exec_link_shape _ x Hx) as (_ & Hlow & Hhigh).
        destruct (endIndex x) as [|e] eqn:He; [lia|].
        apply (attempt_hit _ x); [exact Hx|]. rewrite He. cbn [drop]. apply IH. exact Hin.
      * apply attempt_miss; [exact Hx|]. apply (IH 0%nat). exact Hin.
    + cbn [drop]. apply IH. exact Hin.
Qed.

Lemma alone_aloneb pre T post : alone pre T post -> aloneb pre T post = true.
Proof.
  intros [Hpre Hpost]. unfold aloneb. apply andb_true_iff. split; [|apply ends_endsb; exact Hpost].
  apply forallb_forall. intros u Hu. destruct u as [|c u]; [reflexivity|].
  apply ends_endsb. apply Hpre; [|discriminate].
  apply (attempts_attempt pre 0 (c :: u)). exact Hu.
Qed.

(** Whether a bare timestamp stands alone is decided by [aloneb]. *)
Lemma alone_decided pre T post : alone pre T post <-> aloneb pre T post = true.
Proof. split; [apply alone_aloneb|apply aloneb_alone]. Qed.

(** Bare timestamps that stand alone: after a dash that ends no range,
    before a dash that starts none, after a colon, behind a range that is
    complete, and at the back of another timestamp. *)
Example alone_after_dash : alone (lit "- ") (lit "1:23") (lit " intro").
Proof. apply aloneb_alone. vm_compute. reflexivity. Qed.

Example alone_before_dash : alone (lit "at ") (lit "1:23") (lit " - he says").
Proof. apply aloneb_alone. vm_compute. reflexivity. Qed.

Example alone_after_colon : alone (lit "see:") (lit "1:23") [].
Proof. apply aloneb_alone. vm_compute. reflexivity. Qed.

Example alone_after_range : alone (lit "1:00 - 2:00 - ") (lit "3:00") [].
Proof. apply aloneb_alone. vm_compute. reflexivity. Qed.

Example alone_after_timestamp : alone (lit "1:23") (lit "4:56") [].
Proof. apply aloneb_alone. vm_compute. reflexivity. Qed.

(** Bare timestamps that do not: the pattern reaches into them from a
    timestamp and a dash, from a bracket, from a digit or from a colon, or
    goes on behind them with a third field, a range or a bracket. *)
Example joined_from_before :
  ~ alone (lit "1:00 - ") (lit "2:00") [] /\
  ~ alone (lit "(") (lit "2:00") [] /\
  ~ alone (lit "x1") (lit "2:00") [] /\
  ~ alone (lit "1:") (lit "23:45") [].
Proof. repeat split; intros H; apply alone_aloneb in H; vm_compute in H; discriminate H. Qed.

Example joined_behind :
  ~ alone [] (lit "1:23") (lit ":45") /\
  ~ alone [] (lit "1:23") (lit " -2:00") /\
  ~ alone [] (lit "1:23") (lit ")").
Proof. repeat split; intros H; apply alone_aloneb in H; vm_compute in H; discriminate H. Qed.

(** *** The first match is the longest *)

Lemma run_Chr_cases input p x :
  (run input (Chr p) x = [] /\ forall c, input !! endIndex x = Some c -> p c = false) \/
  (run input (Chr p) x = [advance x] /\ exists c, input !! endIndex x = Some c /\ p c = true).
Proof.
  cbn [run]. destruct (input !! endIndex x) as [c|] eqn:Hc.
  - destruct (p c) eqn:Hp.
    + right. split; [reflexivity|]. exists c. auto.
    + left. split; [reflexivity|]. intros c' [= <-]. exact Hp.
  - left. split; [reflexivity|]. discriminate.
Qed.

Lemma run_Opt_step input r x :
  run input (Opt r) x = flat_map (progress x) (run input r x) ++ [x].
Proof. reflexivity. Qed.

Lemma progress_advance x y :
  (endIndex x < endIndex y)%nat -> progress x y = [y].
Proof. intros H. unfold progress. apply Nat.ltb_lt in H. rewrite H. reflexivity. Qed.

(** Two digits. *)
Lemma run_two_digits input x :
  run input (Cat (Chr isDigit) (Chr isDigit)) x = [] \/
  run input (Cat (Chr isDigit) (Chr isDigit)) x = [advance (advance x)].
Proof.
  rewrite run_Cat_step.
  destruct (run_Chr_cases input isDigit x) as [[-> _]|[-> _]]; [left; reflexivity|].
  cbn [flat_map]. rewrite app_nil_r.
  destruct (run_Chr_cases input isDigit (advance x)) as [[-> _]|[-> _]]; auto.
Qed.

(** The optional third field. *)
Lemma run_third input z :
  run input (Opt (Cat (Chr isColon) (Cat (Chr isDigit) (Chr isDigit)))) z = [z] \/
  (run input (Opt (Cat (Chr isColon) (Cat (Chr isDigit) (Chr isDigit)))) z =
     [MState (endIndex z + 3) (captures z); z] /\
   exists c, input !! endIndex z = Some c /\ isColon c = true).
Proof.
  rewrite run_Opt_step, run_Cat_step.
  destruct (run_Chr_cases input isColon z) as [[-> _]|[-> Hc]]; [left; reflexivity|].
  cbn [flat_map]. rewrite app_nil_r.
  destruct (run_two_digits input (advance z)) as [-> | ->]; [left; reflexivity|].
  right. split; [|exact Hc]. cbn [flat_map]. rewrite app_nil_r.
  rewrite progress_advance by (cbn; lia). cbn [app advance endIndex captures].
  replace (endIndex z + 3)%nat with (S (S (S (endIndex z)))) by lia. reflexivity.
Qed.

Lemma run_T_shape input x :
  run input timestampPattern x = [] \/
  exists y,
    (endIndex x < endIndex y)%nat /\ captures y = captures x /\
    (run input timestampPattern x = [y] \/
     (run input timestampPattern x = [MState (endIndex y + 3) (captures y); y] /\
      exists c, input !! endIndex y = Some c /\ isColon c = true)).
Proof.
  unfold timestampPattern.
  set (third := Opt (Cat (Chr isColon) (Cat (Chr isDigit) (Chr isDigit)))).
  set (rest := Cat (Chr isColon) (Cat (Cat (Chr isDigit) (Chr isDigit)) third)).
  assert (Hrest : forall y,
    run input rest y = [] \/
    run input rest y = run input third (MState (endIndex y + 3) (captures y))).
  { intros y. unfold rest. rewrite run_Cat_step.
    destruct (run_Chr_cases input isColon y) as [[-> _]|[-> _]]; [left; reflexivity|].
    cbn [flat_map]. rewrite app_nil_r, run_Cat_step.
    destruct (run_two_digits input (advance y)) as [-> | ->]; [left; reflexivity|].
    right. cbn [flat_map advance endIndex captures]. rewrite app_nil_r.
    replace (endIndex y + 3)%nat with (S (S (S (endIndex y)))) by lia. reflexivity. }
  assert (Hshape : forall y, (endIndex x < endIndex y)%nat -> captures y = captures x ->
    run input rest y = [] \/
    exists z,
      (endIndex x < endIndex z)%nat /\ captures z = captures x /\
      (run input rest y = [z] \/
       (run input rest y = [MState (endIndex z + 3) (captures z); z] /\
        exists c, input !! endIndex z = Some c /\ isColon c = true))).
  { intros y Hy Hcap. destruct (Hrest y) as [-> | ->]; [left; reflexivity|]. right.
    exists (MState (endIndex y + 3) (captures y)). cbn [endIndex captures].
    split; [lia|]. split; [exact Hcap|]. unfold third.
    destruct (run_third input (MState (endIndex y + 3) (captures y))) as [->|[-> Hc]];
      [left; reflexivity|right; split; [reflexivity|exact Hc]]. }
  rewrite run_Cat_step, run_Cat_step.
  destruct (run_Chr_cases input isDigit x) as [[-> _]|[-> _]]; [left; reflexivity|].
  cbn [flat_map]. rewrite app_nil_r.
  destruct (run_Chr_cases input isDigit (advance x)) as [[H1 _]|[H1 (c & Hc & Hd)]].
  - rewrite run_Opt_step, H1. cbn [flat_map app]. rewrite app_nil_r.
    apply Hshape; [cbn; lia|reflexivity].
  - rewrite run_Opt_step, H1. cbn [flat_map app]. rewrite app_nil_r.
    rewrite progress_advance by (cbn; lia). cbn [app flat_map].
    assert (Hmiss : run input rest (advance x) = []).
    { unfold rest. rewrite run_Cat_step, run_Chr_miss; [reflexivity|].
      intros c' Hc'. rewrite Hc in Hc'. injection Hc' as <-.
      class_facts. }
    rewrite Hmiss, !app_nil_r. apply Hshape; [cbn; lia|reflexivity].
Qed.
Lemma run_T_miss input x :
  (forall c, input !! endIndex x = Some c -> isDigit c = false) ->
  run input timestampPattern x = [].
Proof.
  intros H. unfold timestampPattern. rewrite !run_Cat_step.
  rewrite (run_Chr_miss input isDigit x H). reflexivity.
Qed.

(** The iterations of a class: all but the longest end before a unit of
    the class. *)
Lemma star_Chr_shape input p :
  forall fuel x,
    exists y0 rest,
      star fuel (run input (Chr p)) x = y0 :: rest /\
      Forall (fun y => exists c, input !! endIndex y = Some c /\ p c = true) rest /\
      (endIndex x <= endIndex y0)%nat /\ captures y0 = captures x /\
      (y0 = x \/ exists c, input !! endIndex x = Some c /\ p c = true).
Proof.
  induction fuel as [|fuel IH]; intros x.
  - exists x, []. cbn [star]. repeat split; auto.
  - cbn [star]. destruct (run_Chr_cases input p x) as [[-> _]|[-> Hc]].
    + exists x, []. cbn [flat_map app]. repeat split; auto.
    + cbn [flat_map]. rewrite app_nil_r.
      assert (Hlt : (endIndex x <? endIndex (advance x))%nat = true)
        by (apply Nat.ltb_lt; cbn; lia).
      rewrite Hlt. destruct (IH (advance x)) as (y0 & rest & -> & Hrest & Hle & Hcap & _).
      exists y0, (rest ++ [x]). split; [reflexivity|]. split.
      * apply Forall_app. split; [exact Hrest|]. constructor; [exact Hc|constructor].
      * cbn in Hle, Hcap. repeat split; [lia|exact Hcap|right; exact Hc].
Qed.

Lemma run_star_then input p r2 x :
  (forall y c, input !! endIndex y = Some c -> p c = true -> run input r2 y = []) ->
  exists y0,
    run input (Cat (Star (Chr p)) r2) x = run input r2 y0 /\
    (endIndex x <= endIndex y0)%nat /\ captures y0 = captures x /\
    (y0 = x \/ exists c, input !! endIndex x = Some c /\ p c = true).
Proof.
  intros Hvanish. rewrite run_Cat_step.
  change (run input (Star (Chr p)) x)
    with (star (S (length input - endIndex x)) (run input (Chr p)) x).
  destruct (star_Chr_shape input p (S (length input - endIndex x)) x)
    as (y0 & rest & -> & Hrest & Hle & Hcap & Hfirst).
  exists y0. split; [|auto]. cbn [flat_map].
  replace (flat_map (run input r2) rest) with (@nil mstate); [apply app_nil_r|].
  symmetry. induction Hrest as [|y rest (c & Hc & Hp) _ IH]; [reflexivity|].
  cbn [flat_map]. rewrite (Hvanish y c Hc Hp), IH. reflexivity.
Qed.

(** The ends of a range tail: the end of its timestamp, and before it the
    end with a third field, if there is one. *)
Lemma run_range_shape input x :
  run input linkRange x = [] \/
  ((exists c, input !! endIndex x = Some c /\ (isWhiteSpace c = true \/ isDash c = true)) /\
   exists g,
     (endIndex x < endIndex g)%nat /\
     (run input linkRange x = [g] \/
      exists g3, run input linkRange x = [g3; g] /\
                 endIndex g3 = (endIndex g + 3)%nat /\
                 exists c, input !! endIndex g = Some c /\ isColon c = true)).
Proof.
  unfold linkRange.
  destruct (run_star_then input isWhiteSpace
              (Cat (Chr isDash) (Cat (Star (Chr isWhiteSpace)) (Grp 2 timestampPattern))) x)
    as (y0 & -> & Hle & _ & Hfirst).
  { intros y c Hc Hp. rewrite run_Cat_step, run_Chr_miss; [reflexivity|].
    intros c' Hc'. rewrite Hc in Hc'. injection Hc' as <-. class_facts. }
  rewrite run_Cat_step.
  destruct (run_Chr_cases input isDash y0) as [[-> _]|[-> Hdash]]; [left; reflexivity|].
  cbn [flat_map]. rewrite app_nil_r.
  destruct (run_star_then input isWhiteSpace (Grp 2 timestampPattern) (advance y0))
    as (z0 & -> & Hle' & _ & _).
  { intros y c Hc Hp. cbn [run]. rewrite run_T_miss; [reflexivity|].
    intros c' Hc'. rewrite Hc in Hc'. injection Hc' as <-. class_facts. }
  cbn [run]. cbn [advance endIndex] in Hle'.
  destruct (run_T_shape input z0) as [-> |(y & Hy & _ & Hrun)]; [left; reflexivity|].
  right. split.
  - destruct Hfirst as [->|(c & Hc & Hp)]; [|exists c; auto].
    destruct Hdash as (c & Hc & Hp). exists c; auto.
  - exists (setCapture 2 (endIndex z0) y). cbn [setCapture endIndex]. split; [lia|].
    destruct Hrun as [-> |[-> Hcolon]]; [left; reflexivity|].
    right. eexists. split; [reflexivity|]. split; [reflexivity|exact Hcolon].
Qed.

(** The ends of what follows the start timestamp: the first is the
    farthest; before a colon there is nothing but the empty tail. *)
Lemma run_tail_shape input t :
  exists h rest,
    run input linkTail t = h :: rest /\
    Forall (fun y => (endIndex y <= endIndex h)%nat) rest /\
    (endIndex t <= endIndex h)%nat /\
    ((exists c, input !! endIndex t = Some c /\ isColon c = true) -> h = t /\ rest = []).
Proof.
  assert (Hclose : forall y,
    run input (Opt (Chr isClose)) y = [y] \/
    (run input (Opt (Chr isClose)) y = [advance y; y] /\
     exists c, input !! endIndex y = Some c /\ isClose c = true)).
  { intros y. rewrite run_Opt_step.
    destruct (run_Chr_cases input isClose y) as [[-> _]|[-> Hc]]; [left; reflexivity|].
    right. split; [|exact Hc]. cbn [flat_map]. rewrite progress_advance by (cbn; lia).
    reflexivity. }
  unfold linkTail. rewrite run_Cat_step, run_Opt_step.
  destruct (run_range_shape input t) as [-> |((c & Hc & Hstart) & g & Hg & Hrun)].
  - cbn [flat_map app]. rewrite app_nil_r.
    destruct (Hclose t) as [-> |[-> (c & Hc & Hp)]].
    + exists t, []. repeat split; auto.
    + exists (advance t), [t]. split; [reflexivity|]. split; [repeat constructor|].
      split; [cbn; lia|]. intros (c' & Hc' & Hcolon). rewrite Hc in Hc'. injection Hc' as <-.
      exfalso. class_facts.
  - assert (Ht : run input (Opt (Chr isClose)) t = [t]).
    { apply run_Opt_Chr_miss. intros c' Hc'. rewrite Hc in Hc'. injection Hc' as <-.
      destruct Hstart; class_facts. }
    assert (Hno : (exists c, input !! endIndex t = Some c /\ isColon c = true) -> False).
    { intros (c' & Hc' & Hcolon). rewrite Hc in Hc'. injection Hc' as <-.
      destruct Hstart; class_facts. }
    destruct Hrun as [-> |(g3 & -> & Hg3 & c' & Hc' & Hcolon)].
    + cbn [flat_map]. rewrite progress_advance by lia. cbn [app flat_map].
      rewrite Ht, app_nil_r.
      destruct (Hclose g) as [-> |[-> _]].
      * exists g, [t]. split; [reflexivity|]. split; [repeat constructor; lia|].
        split; [lia|]. intros H. destruct (Hno H).
      * exists (advance g), [g; t]. split; [reflexivity|].
        split; [repeat constructor; cbn; lia|]. split; [cbn; lia|].
        intros H. destruct (Hno H).
    + cbn [flat_map]. rewrite !progress_advance by lia. cbn [app flat_map].
      rewrite Ht, app_nil_r.
      assert (Hgc : run input (Opt (Chr isClose)) g = [g]).
      { apply run_Opt_Chr_miss. intros c'' Hc''. rewrite Hc' in Hc''. injection Hc'' as <-.
        class_facts. }
      rewrite Hgc.
      destruct (Hclose g3) as [-> |[-> _]].
      * exists g3, [g; t]. split; [reflexivity|]. split; [repeat constructor; lia|].
        split; [lia|]. intros H. destruct (Hno H).
      * exists (advance g3), [g3; g; t]. split; [reflexivity|].
        split; [repeat constructor; cbn; lia|]. split; [cbn; lia|].
        intros H. destruct (Hno H).
Qed.

(** The first end the matcher reaches is the farthest. *)
Lemma run_body_topped input x :
  forall h rest,
    run input linkBody x = h :: rest ->
    Forall (fun y => (endIndex y <= endIndex h)%nat) rest.
Proof.
  intros h rest. unfold linkBody. rewrite run_Cat_step. cbn [run].
  destruct (run_T_shape input x) as [-> |(y & Hy & _ & [-> |[-> Hcolon]])].
  - discriminate.
  - cbn [map flat_map]. rewrite app_nil_r.
    destruct (run_tail_shape input (setCapture 1 (endIndex x) y)) as (h' & rest' & -> & H & _).
    intros [= <- <-]. exact H.
  - cbn [map flat_map]. rewrite app_nil_r.
    destruct (run_tail_shape input (setCapture 1 (endIndex x) y)) as (h2 & rest2 & -> & _ & _ & Hc).
    destruct (Hc Hcolon) as [-> ->].
    destruct (run_tail_shape input
                (setCapture 1 (endIndex x) (MState (endIndex y + 3) (captures y))))
      as (h' & rest' & -> & H & Hle & _).
    cbn [app]. intros [= <- <-]. apply Forall_app. split; [exact H|].
    constructor; [|constructor]. cbn [setCapture endIndex] in *. lia.
Qed.

Lemma run_link_topped input x :
  forall h rest,
    run input linkRegex x = h :: rest ->
    Forall (fun y => (endIndex y <= endIndex h)%nat) rest.
Proof.
  intros h rest. unfold linkRegex. rewrite run_Cat_step, run_Opt_step.
  destruct (run_Chr_cases input isOpen x) as [[-> _]|[-> (c & Hc & Hopen)]].
  - cbn [flat_map app]. rewrite app_nil_r. apply run_body_topped.
  - cbn [flat_map]. rewrite progress_advance by (cbn; lia). cbn [app flat_map].
    rewrite (run_linkBody_miss input x), !app_nil_r; [apply run_body_topped|].
    intros c' Hc'. rewrite Hc in Hc'. injection Hc' as <-. class_facts.
Qed.

Lemma exec_longest text x s :
  exec linkRegex text = Some x -> lang linkRegex s -> s `prefix_of` text ->
  (length s <= endIndex x)%nat.
Proof.
  intros Hx Hs [w ->].
  destruct (run_complete (s ++ w) linkRegex s Hs start0) as (y & Hy & He).
  - cbn. lia.
  - unfold substring, start0. cbn [endIndex]. rewrite drop_0, Nat.add_0_l, Nat.sub_0_r.
    apply take_app_length.
  - unfold exec in Hx. fold start0 in Hx.
    destruct (run (s ++ w) linkRegex start0) as [|h rest] eqn:Hrun; [discriminate|].
    injection Hx as ->. pose proof (run_link_topped _ _ _ _ Hrun) as Htop.
    cbn [start0 endIndex] in He. destruct Hy as [->|Hy]; [lia|].
    rewrite List.Forall_forall in Htop. specialize (Htop y Hy). lia.
Qed.

(** *** Standing alone, and where the scan comes *)

Lemma exec_none_lang text s :
  exec linkRegex text = None -> lang linkRegex s -> s `prefix_of` text -> False.
Proof.
  intros Hx Hs [w ->].
  destruct (run_complete (s ++ w) linkRegex s Hs start0) as (y & Hy & _).
  - cbn. lia.
  - unfold substring, start0. cbn [endIndex]. rewrite drop_0, Nat.add_0_l, Nat.sub_0_r.
    apply take_app_length.
  - unfold exec in Hx. fold start0 in Hx.
    destruct (run (s ++ w) linkRegex start0); [destruct Hy|discriminate].
Qed.

Lemma exec_prefix_hit (u t : jsstring) x :
  exec linkRegex (u ++ t) = Some x -> (endIndex x <= length u)%nat ->
  exec linkRegex u = Some x.
Proof.
  unfold exec. fold start0. intros Hx Hle.
  rewrite (run_prefix u t linkRegex start0) by (cbn; lia).
  destruct (run (u ++ t) linkRegex start0) as [|h rest]; [discriminate|].
  injection Hx as ->. cbn [List.filter]. unfold within at 1.
  apply Nat.leb_le in Hle. rewrite Hle. reflexivity.
Qed.

Lemma exec_prefix_miss (u t : jsstring) :
  exec linkRegex (u ++ t) = None -> exec linkRegex u = None.
Proof.
  unfold exec. fold start0. intros Hx.
  rewrite (run_prefix u t linkRegex start0) by (cbn; lia).
  destruct (run (u ++ t) linkRegex start0); [reflexivity|discriminate].
Qed.

Lemma attempt_suffix text u : attempt text u -> exists p, text = p ++ u.
Proof.
  induction 1 as [text|c rest u _ _ (p & ->)|text x u _ _ (p & Hp)].
  - exists []. reflexivity.
  - exists (c :: p). reflexivity.
  - exists (take (endIndex x) text ++ p). rewrite <- app_assoc, <- Hp. symmetry. apply take_drop.
Qed.

Lemma attempt_nil u : attempt [] u -> u = [].
Proof. intros H. destruct (attempt_suffix _ _ H) as (p & Hp). destruct p; [auto|discriminate]. Qed.

(** Where the scan of a text comes to try the pattern at [rest], no attempt
    before reached into [rest]. *)
Lemma scan_back (rest : jsstring) :
  forall text, attempt text rest ->
    forall pre, text = pre ++ rest ->
      forall u, attempt pre u -> u <> [] -> ends u rest.
Proof.
  induction 1 as [text|c tail target Hx Htail IH|text x target Hx Htail IH];
    intros pre Hpre u Hu Hne.
  - assert (pre = []) as ->.
    { apply (f_equal length) in Hpre. rewrite length_app in Hpre.
      destruct pre; [reflexivity|cbn in Hpre; lia]. }
    apply attempt_nil in Hu. congruence.
  - destruct pre as [|c' pre]; [apply attempt_nil in Hu; congruence|].
    injection Hpre as <- ->.
    inversion Hu as [text' Ht|c'' rest' u' Hx' Hu' Ht|text' x' u' Hx' Hu' Ht]; subst.
    + intros v Hv [w Hw] Hlang. apply (exec_none_lang _ _ Hx Hlang).
      exists w. rewrite Hw. change (c :: pre ++ v ++ w) with ((c :: pre) ++ v ++ w).
      apply app_assoc.
    + apply (IH pre eq_refl); assumption.
    + rewrite (exec_prefix_miss (c :: pre) target Hx) in Hx'. discriminate.
  - destruct (exec_link_shape _ x Hx) as (_ & Hlow & Hhigh).
    destruct (attempt_suffix _ _ Htail) as (p & Hp).
    assert (Hle : (endIndex x <= length pre)%nat).
    { apply (f_equal length) in Hp. rewrite length_drop, length_app in Hp.
      rewrite Hpre, length_app in *. lia. }
    subst text. pose proof (exec_prefix_hit pre target x Hx Hle) as Hx0.
    inversion Hu as [text' Ht|c'' rest' u' Hx' Hu' Ht|text' x' u' Hx' Hu' Ht]; subst.
    + intros v Hv Hpref Hlang.
      assert (Hlen : (length (u ++ v) <= endIndex x)%nat).
      { apply (exec_longest (u ++ target) x); [exact Hx|exact Hlang|].
        destruct Hpref as [w ->]. exists w. apply app_assoc. }
      rewrite length_app in Hlen. destruct v; [congruence|cbn in Hlen; lia].
    + congruence.
    + assert (x' = x) as -> by congruence.
      apply (IH (drop (endIndex x) pre)); [|assumption|assumption].
      apply drop_app_le. exact Hle.
Qed.

(** The scan comes to the end of a text into which no attempt reaches
    beyond. *)
Lemma scan_forth (rest : jsstring) :
  forall n pre, (length pre <= n)%nat ->
    (forall u, attempt pre u -> u <> [] -> ends u rest) ->
    attempt (pre ++ rest) rest.
Proof.
  induction n as [|n IH]; intros pre Hn Hpre.
  - destruct pre; [constructor|cbn in Hn; lia].
  - destruct pre as [|a s]; [constructor|].
    pose proof (exec_local (a :: s) rest (Hpre _ (attempt_here _) ltac:(discriminate))) as Hexec.
    destruct (exec linkRegex (a :: s)) as [x|] eqn:Hx.
    + destruct (exec_link_shape _ x Hx) as (_ & Hlow & Hhigh).
      apply (attempt_hit _ x); [exact Hexec|].
      rewrite drop_app_le by exact Hhigh. apply IH.
      * rewrite length_drop. cbn [length] in *. lia.
      * intros u Hu. apply Hpre. apply (attempt_hit _ x); assumption.
    + change ((a :: s) ++ rest) with (a :: (s ++ rest)) in *.
      apply attempt_miss; [exact Hexec|].
      apply IH; [cbn [length] in Hn; lia|].
      intros u Hu. apply Hpre. apply attempt_miss; assumption.
Qed.

(** A bare timestamp stands alone exactly when the scan of the whole text
    comes to try the pattern where the timestamp starts, and the match
    there is the timestamp and no more. *)
Lemma alone_exact pre T post :
  timestampForm T ->
  alone pre T post <->
  attempt (pre ++ T ++ post) (T ++ post) /\
  exists x, exec linkRegex (T ++ post) = Some x /\ endIndex x = length T.
Proof.
  intros HT. split.
  - intros [Hpre Hpost]. split; [apply (scan_forth _ (length pre)); auto|].
    destruct (exec_alone T post HT Hpost) as (x & Hx & He & _). eauto.
  - intros (Hscan & x & Hx & He). split.
    + apply (scan_back (T ++ post) _ Hscan pre eq_refl).
    + intros v Hv [w ->] Hlang.
      assert (Hlen : (length (T ++ v) <= endIndex x)%nat).
      { apply (exec_longest (T ++ v ++ w) x); [exact Hx|exact Hlang|].
        exists w. apply app_assoc. }
      rewrite length_app in Hlen. destruct v; [congruence|cbn in Hlen; lia].
Qed.

(** *** Standing alone is what it takes *)

Lemma lang_units r s (c : N) : lang r s -> rejects c r -> ~ In c s.
Proof.
  induction 1 as [p c' Hp|r1 r2 s1 s2 _ IH1 _ IH2|r|r s _ IH|r|r s1 s2 _ IH1 _ IH2|n r s _ IH];
    cbn [rejects]; intros Hr Hin.
  - destruct Hin as [->|[]]. congruence.
  - apply in_app_iff in Hin. destruct Hr as [H1 H2]. destruct Hin; [apply IH1|apply IH2]; auto.
  - destruct Hin.
  - apply IH; auto.
  - destruct Hin.
  - apply in_app_iff in Hin. destruct Hin; [apply IH1|apply IH2]; auto.
  - apply IH; auto.
Qed.

Lemma link_no_angle s : lang linkRegex s -> ~ In 60 s.
Proof. intros H. apply (lang_units _ _ 60 H). repeat split. Qed.

Lemma digits_quote_inv D1 : forall D2 X Y,
  digits D1 -> digits D2 -> D1 ++ 34 :: X = D2 ++ 34 :: Y -> D1 = D2 /\ X = Y.
Proof.
  induction D1 as [|a D1 IH]; intros D2 X Y H1 H2 Heq.
  - destruct D2 as [|b D2]; [injection Heq as <-; auto|].
    injection Heq as <- _. inversion H2 as [|? ? Hb _]. discriminate Hb.
  - destruct D2 as [|b D2].
    + injection Heq as -> _. inversion H1 as [|? ? Ha _]. discriminate Ha.
    + injection Heq as <- Heq. inversion H1; inversion H2; subst.
      destruct (IH D2 X Y) as [-> ->]; auto.
Qed.

(** Two anchors, the match of one going on where the match of the other
    ends, are different texts. *)
Lemma anchors_differ m w g1 g2 D1 D2 R1 R2 :
  digits D1 -> digits D2 ->
  pieceLink (Link (m ++ w) g1 D1) ++ R1 = pieceLink (Link m g2 D2) ++ R2 ->
  w = [] \/ head w = Some 60.
Proof.
  intros H1 H2. cbn [pieceLink]. rewrite <- !app_assoc. intros Heq.
  do 10 apply app_inv_head in Heq.
  apply (digits_quote_inv D1 D2) in Heq as [_ Heq]; [|assumption|assumption].
  do 2 apply app_inv_head in Heq.
  destruct w as [|c w]; [left; reflexivity|right].
  injection Heq as ->. reflexivity.
Qed.
Lemma exec_lang text x :
  exec linkRegex text = Some x -> lang linkRegex (take (endIndex x) text).
Proof.
  intros Hx. apply exec_In in Hx. fold start0 in Hx.
  pose proof (run_sound text linkRegex start0 x Hx ltac:(cbn; lia)) as H.
  unfold substring, start0 in H. cbn [endIndex] in H. rewrite drop_0, Nat.sub_0_r in H. exact H.
Qed.

Lemma linkify_hit_spelled text x :
  exec linkRegex text = Some x ->
  exists g D,
    digits D /\
    linkifyTimestamps text =
    pieceLink (Link (take (endIndex x) text) g D) ++ linkifyTimestamps (drop (endIndex x) text).
Proof.
  intros Hx. destruct (exec_link_shape text x Hx) as ((op & range & cl & _ & HT & _) & _).
  destruct (linkCallback_spelled (take (endIndex x) text) _ HT) as (D & HD & _ & _ & _ & Hcb).
  exists (group 1 text x), D. split; [exact HD|].
  rewrite (linkify_hit text x Hx), Hcb. reflexivity.
Qed.

Lemma ends_dec u t : ends u t \/ ~ ends u t.
Proof.
  destruct (endsb u t) eqn:E; [left; apply endsb_ends; exact E|].
  right. intros H. apply ends_endsb in H. congruence.
Qed.

(** Where an attempt of the scan reaches into the text behind, the whole
    is not linked as its parts are. *)
Lemma scan_joined (rest Z : jsstring) :
  forall n pre, (length pre <= n)%nat ->
    (exists u, attempt pre u /\ u <> [] /\ ~ ends u rest) ->
    linkifyTimestamps (pre ++ rest) <> linkifyTimestamps pre ++ Z.
Proof.
  induction n as [|n IH]; intros pre Hn (u & Hu & Hne & Hnot).
  - destruct pre; [|cbn in Hn; lia]. apply attempt_nil in Hu. congruence.
  - destruct pre as [|a s]; [apply attempt_nil in Hu; congruence|].
    destruct (ends_dec (a :: s) rest) as [Hends|Hjoined].
    + pose proof (exec_local (a :: s) rest Hends) as Hexec.
      inversion Hu as [text' Ht|c'' rest' u' Hx' Hu' Ht|text' x' u' Hx' Hu' Ht]; subst.
      * contradiction.
      * rewrite Hx' in Hexec.
        change ((a :: s) ++ rest) with (a :: (s ++ rest)) in *.
        rewrite (linkify_miss _ _ Hexec), (linkify_miss _ _ Hx'). cbn [app].
        intros [= Heq]. revert Heq. apply IH; [cbn [length] in Hn; lia|eauto].
      * rewrite Hx' in Hexec.
        destruct (exec_link_shape _ x' Hx') as (_ & Hlow & Hhigh).
        destruct (exec_within _ _ _ Hx') as (_ & Hgroup).
        rewrite (linkify_hit _ x' Hexec), (linkify_hit _ x' Hx'), Hgroup.
        rewrite take_app_le, drop_app_le by exact Hhigh.
        rewrite <- app_assoc. intros Heq. apply app_inv_head in Heq. revert Heq.
        apply IH; [|eauto]. rewrite length_drop. cbn [length] in *. lia.
    + assert (Hcross : exists v, v <> [] /\ v `prefix_of` rest /\ lang linkRegex ((a :: s) ++ v)).
      { destruct (endsb (a :: s) rest) eqn:E; [destruct Hjoined; apply endsb_ends; exact E|].
        unfold endsb in E.
        assert (Hex : exists y, In y (run ((a :: s) ++ rest) linkRegex start0) /\
                                within (length (a :: s)) y = false).
        { clear -E. induction (run ((a :: s) ++ rest) linkRegex start0) as [|y l IHl];
            [discriminate|]. cbn [forallb] in E. apply andb_false_iff in E as [E|E].
          - exists y. split; [left; reflexivity|exact E].
          - destruct (IHl E) as (y' & Hy' & Hw). exists y'. split; [right; exact Hy'|exact Hw]. }
        destruct Hex as (y & Hy & Hw). unfold within in Hw. apply Nat.leb_gt in Hw.
        pose proof (run_sound _ linkRegex start0 y Hy ltac:(cbn; lia)) as Hlang.
        destruct (run_follows _ linkRegex start0 y Hy) as (_ & Hlen & _).
        specialize (Hlen ltac:(cbn; lia)). rewrite length_app in Hlen.
        unfold substring, start0 in Hlang. cbn [endIndex] in Hlang.
        rewrite drop_0, Nat.sub_0_r, take_app in Hlang.
        rewrite take_ge in Hlang by lia.
        exists (take (endIndex y - length (a :: s)) rest).
        split; [|split; [apply prefix_take|exact Hlang]].
        intros Hnil. apply (f_equal length) in Hnil. rewrite length_take in Hnil.
        cbn [length] in *. lia. }
      destruct Hcross as (v & Hv & Hpref & Hlang).
      assert (Hpre' : ((a :: s) ++ v) `prefix_of` ((a :: s) ++ rest)).
      { destruct Hpref as [w ->]. exists w. apply app_assoc. }
      destruct (exec linkRegex ((a :: s) ++ rest)) as [x|] eqn:Hx;
        [|destruct (exec_none_lang _ _ Hx Hlang Hpre')].
      pose proof (exec_longest _ x _ Hx Hlang Hpre') as Hlong.
      rewrite length_app in Hlong.
      assert (Hv' : (0 < length v)%nat) by (destruct v; [congruence|cbn; lia]).
      destruct (linkify_hit_spelled _ x Hx) as (g1 & D1 & HD1 & ->).
      pose proof (exec_lang _ x Hx) as Hm.
      destruct (exec linkRegex (a :: s)) as [x'|] eqn:Hx'.
      * destruct (exec_link_shape _ x' Hx') as (_ & Hlow & Hhigh).
        destruct (linkify_hit_spelled _ x' Hx') as (g2 & D2 & HD2 & ->).
        rewrite <- app_assoc.
        assert (Hsplit : take (endIndex x) ((a :: s) ++ rest) =
                         take (endIndex x') (a :: s) ++
                         drop (endIndex x') (take (endIndex x) ((a :: s) ++ rest))).
        { rewrite <- (take_drop (endIndex x') (take (endIndex x) ((a :: s) ++ rest))) at 1.
          f_equal. rewrite take_take, Nat.min_l by lia. apply take_app_le. exact Hhigh. }
        rewrite Hsplit. intros Heq.
        destruct (exec_link_shape _ x Hx) as (_ & _ & Htop).
        apply anchors_differ in Heq as [Hw|Hw]; [| |exact HD1|exact HD2].
        -- apply (f_equal length) in Hw. rewrite length_drop, length_take in Hw.
           cbn [length] in *. lia.
        -- apply (link_no_angle _ Hm). rewrite Hsplit. apply in_app_iff. right.
           destruct (drop (endIndex x') (take (endIndex x) ((a :: s) ++ rest)));
             [discriminate|]. injection Hw as ->. left. reflexivity.
      * rewrite (linkify_miss _ _ Hx'). cbn [pieceLink]. rewrite <- !app_assoc.
        cbn [app]. intros Heq. injection Heq as Ha _.
        apply (link_no_angle _ Hlang). left. 
        rewrite <- Ha. reflexivity.
Qed.

Lemma ends_nil u : ends u [].
Proof.
  intros v Hv [w Hw]. destruct v; [congruence|discriminate].
Qed.

(** A timestamp by itself is linked as a whole. *)
Lemma linkify_timestamp T :
  timestampForm T -> linkifyTimestamps T = linkCallback T T.
Proof.
  intros HT. destruct (exec_alone T [] HT (ends_nil T)) as (x & Hx & He & Hg).
  rewrite app_nil_r in Hx. rewrite (linkify_hit T x Hx), He, Hg.
  rewrite take_ge, drop_all by lia. apply app_nil_r.
Qed.

Lemma forallb_false {A} (f : A -> bool) l :
  forallb f l = false -> exists x, In x l /\ f x = false.
Proof.
  induction l as [|a l IH]; [discriminate|]. cbn [forallb]. intros H.
  apply andb_false_iff in H as [H|H].
  - exists a. split; [left; reflexivity|exact H].
  - destruct (IH H) as (x & Hx & Hf). exists x. split; [right; exact Hx|exact Hf].
Qed.

(** Standing alone is what it takes: a bare timestamp stands alone exactly
    when linking the whole text is linking the text before it, the
    timestamp and the text behind it, one by one. *)
Lemma alone_exact_links pre T post :
  timestampForm T ->
  alone pre T post <->
  linkifyTimestamps (pre ++ T ++ post) =
  linkifyTimestamps pre ++ linkifyTimestamps T ++ linkifyTimestamps post.
Proof.
  intros HT. split.
  - intros Halone. rewrite (linkify_timestamp T HT). apply link_alone; assumption.
  - intros Heq. destruct (aloneb pre T post) eqn:E; [apply aloneb_alone; exact E|].
    exfalso. unfold aloneb in E. apply andb_false_iff in E as [E|E].
    + apply forallb_false in E as (u & Hu & Hf).
      destruct u as [|c u]; [discriminate|].
      revert Heq. apply (scan_joined _ _ (length pre) pre (le_n _)).
      exists (c :: u). split; [apply (attempts_attempt pre 0); exact Hu|].
      split; [discriminate|]. intros H. apply ends_endsb in H. congruence.
    + assert (Hpre : forall u, attempt pre u -> u <> [] -> ends u (T ++ post)).
      { intros u Hu Hne. destruct (ends_dec u (T ++ post)) as [H|H]; [exact H|]. exfalso.
        revert Heq. apply (scan_joined _ _ (length pre) pre (le_n _)). eauto. }
      rewrite (scan_apart (T ++ post) (length pre) pre (le_n _) Hpre) in Heq.
      apply app_inv_head in Heq. revert Heq.
      apply (scan_joined _ _ (length T) T (le_n _)).
      exists T. split; [constructor|]. split; [destruct HT; discriminate|].
      intros H. apply ends_endsb in H. congruence.
Qed.

(** *** The theorems *)






(** C7.  A bare pair of numbers with a colon, with no bracket anywhere in
    the text, is made a link: the output holds the anchor of class
    [time-link] with [data-time] 225 around [3:45]; the pattern asks for no
    bracket. *)
Theorem bare_pair_is_linked :
  exists text : jsstring,
    text = lit "a ratio of 3:45 by weight" /\
    Forall (fun c => isOpen c = false /\ isClose c = false) text /\
    linkifyTimestamps text =
      lit "a ratio of <a href=" ++ [34] ++ lit "#" ++ [34] ++
      lit " class=" ++ [34] ++ lit "time-link" ++ [34] ++
      lit " data-time=" ++ [34] ++ lit "225" ++ [34] ++
      lit ">3:45</a> by weight".
Proof.
  eexists. split; [reflexivity|]. split.
  - repeat constructor.
  - vm_compute. reflexivity.
Qed.

(** ** Timestamps of any number of fields *)







(** With a 175th field the power of 60 is infinite, and zero times
    infinity is NaN. *)
Example timestampToSeconds_175_fields :
  timestampToSeconds (joinColon (repeat (lit "0") 174)) = Int 0 /\
  timestampToSeconds (joinColon (repeat (lit "0") 175)) = NaN.
Proof. split; vm_compute; reflexivity. Qed.

Lemma sumParts_NaN parts : forall i, sumParts parts i NaN = NaN.
Proof. induction parts as [|p parts IH]; intros i; [reflexivity|]. cbn [sumParts jsadd]. apply IH. Qed.

Lemma sumParts_bad_field parts field :
  In field parts -> parseInt field = NaN ->
  forall i seconds, sumParts parts i seconds = NaN.
Proof.
  induction parts as [|p parts IH]; intros Hin Hbad i seconds; [destruct Hin|].
  cbn [sumParts]. destruct Hin as [->|Hin].
  - rewrite Hbad. destruct seconds; cbn [jsmul jsadd]; apply sumParts_NaN.
  - apply IH; assumption.
Qed.

(** X3.  A field that [parseInt] cannot read makes the whole result NaN:
    the empty string, an empty field as in [1::05], or a field that does not
    start with a number. *)
Theorem timestampToSeconds_bad_field (hms field : jsstring) :
  In field (split 58 hms) -> parseInt field = NaN ->
  timestampToSeconds hms = NaN.
Proof.
  intros Hin Hbad. unfold timestampToSeconds.
  apply (sumParts_bad_field _ field); [|exact Hbad].
  apply in_rev. rewrite rev_involutive. exact Hin.
Qed.

Lemma timestampToSeconds_bad_field_witness :
  timestampToSeconds (lit "1::05") = NaN.
Proof.
  apply (timestampToSeconds_bad_field (lit "1::05") []).
  - vm_compute. right. left. reflexivity.
  - reflexivity.
Defined.

(** ** Trimmed records *)

Lemma trimStart_split s :
  exists W, Forall (fun c => isWhiteSpace c = true) W /\ s = W ++ trimStart s.
Proof.
  induction s as [|c s (W & HW & Hs)]; [exists []; split; [constructor|reflexivity]|].
  simpl. destruct (isWhiteSpace c) eqn:Hc.
  - exists (c :: W). split; [constructor; assumption|]. simpl. f_equal. exact Hs.
  - exists []. split; [constructor|reflexivity].
Qed.

Lemma trimStart_head s x r : trimStart s = x :: r -> isWhiteSpace x = false.
Proof.
  induction s as [|c s IH]; [discriminate|]. simpl.
  destruct (isWhiteSpace c) eqn:Hc; [exact IH|]. intros [= <- _]. exact Hc.
Qed.

Lemma trimStart_blank s : blank s -> trimStart s = [].
Proof.
  induction 1 as [|c s Hc _ IH]; [reflexivity|]. cbn [trimStart]. rewrite Hc. exact IH.
Qed.

Lemma trimStart_nil s : trimStart s = [] -> blank s.
Proof.
  intros H. destruct (trimStart_split s) as (W & HW & Hs).
  rewrite H, app_nil_r in Hs. subst s. exact HW.
Qed.

Lemma blank_rev s : blank s -> blank (rev s).
Proof. apply Forall_rev. Qed.

Lemma blank_app s t : blank s -> blank t -> blank (s ++ t).
Proof. intros Hs Ht. apply Forall_app. split; assumption. Qed.

Lemma trim_padded s : padded (trim s) s.
Proof.
  destruct (trimStart_split s) as (W1 & HW1 & Hs).
  destruct (trimStart_split (rev (trimStart s))) as (W2 & HW2 & Hr).
  exists W1, (rev W2). split; [exact HW1|]. split; [apply blank_rev, HW2|].
  unfold trim, trimEnd. rewrite <- rev_app_distr, <- Hr, rev_involutive. exact Hs.
Qed.

Lemma last_rev_head (s : jsstring) : last (rev s) = head s.
Proof. destruct s as [|x s]; [reflexivity|]. cbn [rev]. apply last_snoc. Qed.

Lemma trim_trimmed s : trimmed (trim s).
Proof.
  intros c Hc.
  destruct (trimStart_split (rev (trimStart s))) as (W2 & HW2 & Hr).
  assert (Ht : trimStart s = trim s ++ rev W2).
  { unfold trim, trimEnd. rewrite <- rev_app_distr, <- Hr, rev_involutive. reflexivity. }
  destruct Hc as [Hc|Hc].
  - destruct (trim s) as [|x r] eqn:E; [discriminate|]. injection Hc as ->.
    apply (trimStart_head s c (r ++ rev W2)). exact Ht.
  - unfold trim, trimEnd in Hc. rewrite last_rev_head in Hc.
    destruct (trimStart (rev (trimStart s))) as [|x r] eqn:E; [discriminate|].
    injection Hc as ->. apply (trimStart_head _ _ _ E).
Qed.

Lemma trim_blank s : blank s -> trim s = [].
Proof.
  intros H. unfold trim. rewrite (trimStart_blank s H). reflexivity.
Qed.

Lemma trim_nil s : trim s = [] -> blank s.
Proof.
  intros H. destruct (trim_padded s) as (W1 & W2 & H1 & H2 & Hs).
  rewrite H in Hs. rewrite Hs. apply blank_app; assumption.
Qed.

Lemma trimmedOr_cases content fallback :
  (exists t, content = Some t /\ trim t <> [] /\ trimmedOr content fallback = trim t) \/
  ((content = None \/ exists t, content = Some t /\ blank t) /\
   trimmedOr content fallback = fallback).
Proof.
  destruct content as [t|]; [|right; split; [left|]; reflexivity].
  unfold trimmedOr. destruct (trim t) as [|x r] eqn:E.
  - right. split; [|reflexivity]. right. exists t. split; [reflexivity|apply trim_nil, E].
  - left. exists t. rewrite E. repeat split. discriminate.
Qed.

Lemma trimmed_default : trimmed (lit "0:00").
Proof. intros c [[= <-]|[= <-]]; reflexivity. Qed.

Lemma trimmed_nil : trimmed [].
Proof. intros c [H|H]; discriminate. Qed.

(** X4.  The fields of a record the scraper emits have no white space at
    either end.  The [text] is the segment text without the white space
    around it; the [time] is the timestamp without the white space around
    it, or [0:00] when the timestamp element holds white space only. *)
Theorem surgicalExtract_trimmed (segments : list segmentNode)
    (records : list transcriptRecord) (i : nat) (node : segmentNode)
    (r : transcriptRecord) :
  surgicalExtract segments = Some records ->
  segments !! i = Some node -> records !! i = Some r ->
  trimmed (time r) /\ trimmed (text r) /\
  (forall t, segmentText node = Some t -> padded (text r) t) /\
  (forall t, segmentTimestamp node = Some t ->
     if decide (trim t = []) then blank t /\ time r = lit "0:00"
     else padded (time r) t).
Proof.
  unfold surgicalExtract. intros H Hi Hr.
  assert (Hrec : records =
               map (fun s => TranscriptRecord (trimmedOr (segmentTimestamp s) (lit "0:00"))
                                              (trimmedOr (segmentText s) [])) segments).
  { destruct segments; [discriminate|]. injection H as <-. reflexivity. }
  subst records. change (map ?f segments) with (f <$> segments) in Hr.
  assert (Hrec : r = TranscriptRecord (trimmedOr (segmentTimestamp node) (lit "0:00"))
                                      (trimmedOr (segmentText node) []))
    by (rewrite list_lookup_fmap, Hi in Hr; injection Hr as <-; reflexivity).
  clear Hr H. subst r. cbn [time text].
  split; [|split; [|split]].
  - destruct (trimmedOr_cases (segmentTimestamp node) (lit "0:00"))
      as [(t & _ & _ & ->)|[_ ->]]; [apply trim_trimmed|apply trimmed_default].
  - destruct (trimmedOr_cases (segmentText node) [])
      as [(t & _ & _ & ->)|[_ ->]]; [apply trim_trimmed|apply trimmed_nil].
  - intros t Ht. rewrite Ht. unfold trimmedOr.
    pose proof (trim_padded t) as Hp.
    destruct (trim t) eqn:E; exact Hp.
  - intros t Ht. rewrite Ht. unfold trimmedOr.
    destruct (decide (trim t = [])) as [E|E].
    + rewrite E. split; [apply trim_nil, E|reflexivity].
    + pose proof (trim_padded t) as Hp. destruct (trim t); [congruence|exact Hp].
Qed.

Lemma surgicalExtract_trimmed_witness :
  trimmed (lit "0:05") /\ trimmed (lit "hello world") /\
  (forall t, Some (lit "  hello world ") = Some t -> padded (lit "hello world") t) /\
  (forall t, Some (lit " 0:05") = Some t ->
     if decide (trim t = []) then blank t /\ lit "0:05" = lit "0:00"
     else padded (lit "0:05") t).
Proof.
  apply (surgicalExtract_trimmed
           [SegmentNode (Some (lit " 0:05")) (Some (lit "  hello world "))]
           [TranscriptRecord (lit "0:05") (lit "hello world")] 0
           (SegmentNode (Some (lit " 0:05")) (Some (lit "  hello world ")))
           (TranscriptRecord (lit "0:05") (lit "hello world"))); reflexivity.
Defined.
(** ** The typewriter *)

Lemma indexOf_Some c s : forall from j,
  indexOf c s from = Some j ->
  (from <= j)%nat /\ s !! j = Some c /\
  forall k, (from <= k < j)%nat -> s !! k <> Some c.
Proof.
  induction s as [|x s IH]; intros from j H; [discriminate|].
  destruct from as [|from]; cbn [indexOf] in H.
  - destruct (N.eqb_spec x c) as [->|Hne].
    + injection H as <-. split; [lia|]. split; [reflexivity|]. intros k Hk. lia.
    + destruct (indexOf c s 0) as [j'|] eqn:E; [|discriminate]. injection H as <-.
      destruct (IH 0%nat j' E) as (_ & Hj & Hmin). split; [lia|]. split; [exact Hj|].
      intros [|k] Hk; cbn; [congruence|]. apply Hmin. lia.
  - destruct (indexOf c s from) as [j'|] eqn:E; [|discriminate]. injection H as <-.
    destruct (IH from j' E) as (Hle & Hj & Hmin). split; [lia|]. split; [exact Hj|].
    intros [|k] Hk; [lia|]. cbn. apply Hmin. lia.
Qed.

Lemma indexOf_None c s : forall from,
  indexOf c s from = None -> forall k, (from <= k)%nat -> s !! k <> Some c.
Proof.
  induction s as [|x s IH]; intros from H k Hk; [destruct k; discriminate|].
  destruct from as [|from]; cbn [indexOf] in H.
  - destruct (N.eqb_spec x c) as [->|Hne]; [discriminate|].
    destruct (indexOf c s 0) as [j'|] eqn:E; [discriminate|].
    destruct k as [|k]; cbn; [congruence|]. apply (IH 0%nat E). lia.
  - destruct (indexOf c s from) as [j'|] eqn:E; [discriminate|].
    destruct k as [|k]; [lia|]. cbn. apply (IH from E). lia.
Qed.

Lemma substring_take i (s : jsstring) : substring 0 i s = take i s.
Proof. unfold substring. rewrite drop_0, Nat.sub_0_r. reflexivity. Qed.

(** A step over closed tags moves on and stays within the content. *)
Lemma typeNext_closed content i :
  closedTags content -> (i < length content)%nat ->
  (i < typeNext content i <= length content)%nat.
Proof.
  intros Hclosed Hi. unfold typeNext.
  destruct (bool_decide_reflect (content !! i = Some 60)) as [Hlt|_]; [|lia].
  destruct (indexOf 62 content i) as [tagEnd|] eqn:E.
  - destruct (indexOf_Some _ _ _ _ E) as (Hle & Hj & _).
    apply lookup_lt_Some in Hj. lia.
  - destruct (Hclosed i Hlt) as (j & Hj & Hgt).
    exfalso. apply (indexOf_None _ _ _ E j); [lia|exact Hgt].
Qed.

Lemma type_done ticks content i :
  (length content <= i)%nat -> type ticks content i = [].
Proof.
  intros Hi. destruct ticks; [reflexivity|]. cbn [type].
  destruct (Nat.ltb_spec i (length content)); [lia|reflexivity].
Qed.

Lemma type_closed content :
  closedTags content ->
  forall ticks i, (i < length content)%nat -> (length content - i <= ticks)%nat ->
    last (type ticks content i) = Some content /\
    (length (type ticks content i) <= length content - i)%nat /\
    forall more, type (ticks + more) content i = type ticks content i.
Proof.
  intros Hclosed. induction ticks as [|ticks IH]; intros i Hi Hticks; [lia|].
  cbn [type Nat.add]. destruct (Nat.ltb_spec i (length content)) as [_|]; [|lia].
  destruct (typeNext_closed content i Hclosed Hi) as [Hup Hin].
  destruct (Nat.eq_dec (typeNext content i) (length content)) as [Hend|Hmore].
  - rewrite Hend. rewrite !type_done by lia. rewrite substring_take, firstn_all.
    split; [reflexivity|]. split; [cbn; lia|]. intros more. rewrite type_done by lia.
    reflexivity.
  - destruct (IH (typeNext content i)) as (Hlast & Hlen & Hstop); [lia|lia|].
    split; [|split].
    + rewrite <- Hlast. destruct (type ticks content (typeNext content i)) eqn:E;
        [discriminate|reflexivity].
    + cbn [length]. lia.
    + intros more. rewrite Hstop. reflexivity.
Qed.

(** X5.  When every [<] of the content has a [>] behind it, as in markup
    the browser serialises, the typewriter comes to an end: within
    [content.length] ticks it has shown the whole content as its last frame
    and sets no further timer, so more ticks add no frame. *)
Theorem typeWriter_completes (content : jsstring) (ticks : nat) :
  closedTags content -> content <> [] -> (length content <= ticks)%nat ->
  last (typeWriter ticks content) = Some content /\
  (length (typeWriter ticks content) <= length content)%nat /\
  typeWriter ticks content = typeWriter (length content) content.
Proof.
  intros Hclosed Hne Hticks. unfold typeWriter.
  assert (Hlen : (0 < length content)%nat) by (destruct content; [congruence|cbn; lia]).
  destruct (type_closed content Hclosed (length content) 0%nat) as (Hlast & Hn & Hstop);
    [lia|lia|].
  replace ticks with (length content + (ticks - length content))%nat by lia.
  rewrite Hstop. split; [exact Hlast|]. split; [lia|reflexivity].
Qed.
Lemma typeNext_frame content i :
  closedTags (take i content) -> (i < length content)%nat ->
  closedTags (take (typeNext content i) content).
Proof.
  intros Hinv Hi k Hk. apply lookup_take_Some in Hk as [Hk Hlt].
  unfold typeNext in *.
  destruct (bool_decide_reflect (content !! i = Some 60)) as [Hopen|Hother].
  - destruct (indexOf 62 content i) as [tagEnd|] eqn:E; [|lia].
    destruct (indexOf_Some _ _ _ _ E) as (Hle & Hj & _).
    exists tagEnd. assert (k <> tagEnd) by congruence.
    split; [lia|]. apply lookup_take_Some. split; [exact Hj|lia].
  - assert (k <> i) by congruence.
    destruct (Hinv k) as (j & Hj & Hgt); [apply lookup_take_Some; split; [exact Hk|lia]|].
    apply lookup_take_Some in Hgt as [Hgt Hjlt].
    exists j. split; [exact Hj|]. apply lookup_take_Some. split; [exact Hgt|lia].
Qed.

Lemma type_frames content :
  forall ticks i, closedTags (take i content) ->
    Forall (fun frame => closedTags frame /\ frame `prefix_of` content)
           (type ticks content i).
Proof.
  induction ticks as [|ticks IH]; intros i Hinv; [constructor|].
  cbn [type]. destruct (Nat.ltb_spec i (length content)) as [Hi|]; [|constructor].
  pose proof (typeNext_frame content i Hinv Hi) as Hnext.
  constructor; [|apply IH, Hnext].
  rewrite substring_take. split; [exact Hnext|apply prefix_take].
Qed.

(** X6.  Every frame the typewriter shows is a prefix of the content in
    which every [<] has a [>] behind it: no frame ends between a [<] and the
    next [>]. *)
Theorem typeWriter_frames (ticks : nat) (content frame : jsstring) :
  In frame (typeWriter ticks content) ->
  closedTags frame /\ frame `prefix_of` content.
Proof.
  intros Hin. unfold typeWriter in Hin.
  assert (H0 : closedTags (take 0 content)) by (intros k Hk; discriminate).
  pose proof (type_frames content ticks 0%nat H0) as Hall.
  rewrite List.Forall_forall in Hall. apply Hall, Hin.
Qed.

Lemma typeWriter_frames_witness :
  closedTags (lit "<b>h") /\ lit "<b>h" `prefix_of` lit "<b>hi</b>".
Proof.
  apply (typeWriter_frames 2 (lit "<b>hi</b>") (lit "<b>h")).
  vm_compute. right. left. reflexivity.
Defined.

Lemma typeWriter_completes_witness :
  last (typeWriter 20 (lit "<b>hi</b>")) = Some (lit "<b>hi</b>") /\
  (length (typeWriter 20 (lit "<b>hi</b>")) <= length (lit "<b>hi</b>"))%nat /\
  typeWriter 20 (lit "<b>hi</b>") = typeWriter (length (lit "<b>hi</b>")) (lit "<b>hi</b>").
Proof.
  apply (typeWriter_completes (lit "<b>hi</b>") 20).
  - intros k Hk. do 9 (destruct k as [|k]; [first [discriminate | exists 2%nat; split; [lia|reflexivity] | exists 8%nat; split; [lia|reflexivity]]|]). discriminate.
  - discriminate.
  - cbn. lia.
Defined.
(** ** Clicks on a time link *)

Lemma digits_not_hex c s : digits (c :: s) ->
  match c :: s with
  | a :: b :: r => if (a =? 48) && ((b =? 120) || (b =? 88)) then (16, r) else (10, c :: s)
  | _ => (10, c :: s)
  end = (10, c :: s).
Proof.
  intros H. destruct s as [|b r]; [reflexivity|].
  inversion H as [|? ? _ H']; subst. inversion H' as [|? ? Hb _]; subst.
  apply isDigit_range in Hb.
  destruct (N.eqb_spec b 120); [lia|]. destruct (N.eqb_spec b 88); [lia|].
  rewrite andb_false_r. reflexivity.
Qed.

Lemma parseInt_negative c s :
  digits (c :: s) ->
  parseInt (45 :: c :: s) = toDouble (- Z.of_N (numeral (c :: s))).
Proof.
  intros H. unfold parseInt. cbn [trimStart isWhiteSpace].
  change (isWhiteSpace 45) with false. cbv iota. change (45 =? 45) with true. cbv iota.
  rewrite (digits_not_hex c s H). rewrite (readDigits_numeral c s H). f_equal; lia.
Qed.

(** What a template literal prints of a number, [parseInt] reads back. *)
Lemma parseInt_numToString (x : jsnum) :
  exactNumber x -> parseInt (numToString x) = x.
Proof.
  destruct x as [|z|negative]; [reflexivity| |intros []]. cbn [exactNumber]. intros Hz.
  unfold numToString. destruct (Z.ltb_spec z 0) as [Hneg|Hpos].
  - destruct (decimal_spec (Z.to_N (- z))) as (Hd & Hne & Hnum).
    destruct (decimal (Z.to_N (- z))) as [|c s]; [congruence|].
    rewrite parseInt_negative by exact Hd. rewrite Hnum.
    replace (- Z.of_N (Z.to_N (- z)))%Z with z by lia. apply toDouble_exact, Hz.
  - destruct (decimal_spec (Z.to_N z)) as (Hd & Hne & Hnum).
    destruct (decimal (Z.to_N z)) as [|c s]; [congruence|].
    rewrite parseInt_digits by exact Hd. rewrite Hnum.
    replace (Z.of_N (Z.to_N z)) with z by lia. apply toDouble_exact, Hz.
Qed.

(** X7.  The [data-time] attribute and the click handler agree: where a
    [time-link] carries the number that [timeLink] writes into [data-time],
    a click on it sets the video's time to exactly that number on a watch
    page, and does nothing on any other page. *)
Theorem time_link_click (target : clickTarget) (url : jsstring) (seconds : jsnum) :
  exactNumber seconds ->
  contains (lit "history-video-link") (classList target) = false ->
  contains (lit "time-link") (classList target) = true ->
  dataTime target = Some (numToString seconds) ->
  documentClick target (Some url) =
    if includes (lit "youtube.com/watch") url then [SetCurrentTime seconds] else [].
Proof.
  intros Hexact Hhistory Hlink Hdata. unfold documentClick.
  rewrite Hhistory, Hlink, Hdata. cbn [propertyKey].
  rewrite parseInt_numToString by exact Hexact. reflexivity.
Qed.

Lemma time_link_click_witness :
  documentClick (ClickTarget [lit "time-link"] (lit "#") (Some (lit "83")) None)
                (Some watchUrl) =
  [SetCurrentTime (Int 83)].
Proof.
  apply (time_link_click (ClickTarget [lit "time-link"] (lit "#") (Some (lit "83")) None)
                         watchUrl (Int 83)).
  - vm_compute. reflexivity.
  - reflexivity.
  - reflexivity.
  - reflexivity.
Defined.
(** ** The resync handler *)





(** X10.  Sync, then restore: the record the resync callback writes, run
    with the session id the handler has left, goes under the new id and
    touches no other id; restoring that id sends the very request the
    resync sent, the same transcript to [/save_transcript]. *)
Theorem resync_then_restore (url : jsstring) (node : segmentNode)
    (nodes : list segmentNode) (data : option json) (newId now : jsstring)
    (sessions : gmap jsstring session) (p q : popup) (reply : fetched) :
  includes (lit "youtube.com/watch") url = true -> newId <> [] ->
  let res := resyncClick (Some url) (Some (node :: nodes)) (Resolved true data) newId p in
  exists stored transcript sessions',
    storageCalls (effects res) =
      [StorageGet (StoreNewSession stored transcript);
       StorageGet (StoreMessage (ChatMessage system msgReady true))] /\
    resync_store stored transcript (currentSessionId (after res)) now sessions =
      Some sessions' /\
    (forall id, id <> newId -> sessions' !! id = sessions !! id) /\
    let restored := loadSpecificSession newId sessions' reply q in
    requests (effects restored) = requests (effects res) /\
    currentSessionId (after restored) = Some newId.
Proof.
  intros Hurl Hid res. subst res. unfold resyncClick. rewrite Hurl.
  destruct p as [cur chat next qv qd ad rd tab].
  destruct newId as [|c newId]; [congruence|].
  run_handler. do 3 eexists. split; [reflexivity|].
  unfold resync_store. cbn [propertyKey]. split; [reflexivity|].
  split; [intros id Hne; apply lookup_insert_ne; congruence|].
  unfold loadSpecificSession. rewrite lookup_insert_eq.
  destruct q as [cur' chat' next' qv' qd' ad' rd' tab'].
  cbn [transcriptData chatHistory].
  destruct reply as [|[|] data']; run_handler; split; reflexivity.
Qed.
Lemma resync_then_restore_witness :
  let res := resyncClick (Some watchUrl)
               (Some [SegmentNode (Some (lit "0:00")) (Some (lit "intro"))])
               (Resolved true None) (lit "1762164000000") idlePopup in
  exists stored transcript sessions',
    storageCalls (effects res) =
      [StorageGet (StoreNewSession stored transcript);
       StorageGet (StoreMessage (ChatMessage system msgReady true))] /\
    resync_store stored transcript (currentSessionId (after res))
                 (lit "11/3/2026, 10:00:00 AM") ∅ = Some sessions' /\
    (forall id, id <> lit "1762164000000" -> sessions' !! id = (∅ : gmap jsstring session) !! id) /\
    let restored := loadSpecificSession (lit "1762164000000") sessions' Rejected idlePopup in
    requests (effects restored) = requests (effects res) /\
    currentSessionId (after restored) = Some (lit "1762164000000").
Proof.
  apply (resync_then_restore watchUrl (SegmentNode (Some (lit "0:00")) (Some (lit "intro")))
           [] None (lit "1762164000000") (lit "11/3/2026, 10:00:00 AM") ∅
           idlePopup idlePopup Rejected).
  - reflexivity.
  - discriminate.
Defined.

(** ** Clearing and restoring *)



(** X12.  A session that [clearSelectedHistory] has deleted cannot be
    restored: [loadSpecificSession] with its id, on the sessions the
    callback wrote, sends nothing and leaves the popup as it is. *)
Theorem deleted_session_not_restored (selected : list jsstring) (id : jsstring)
    (sessions sessions' : gmap jsstring session) (reply : fetched) (p : popup) :
  In id selected ->
  clearSelectedHistory_store selected sessions = Some sessions' ->
  loadSpecificSession id sessions' reply p = (Some tt, p, []).
Proof.
  intros Hin [= <-]. unfold loadSpecificSession.
  rewrite delete_all_lookup. rewrite decide_True; [reflexivity|].
  apply list_elem_of_In, Hin.
Qed.

Lemma deleted_session_not_restored_witness :
  loadSpecificSession (lit "1762164000000") ∅ Rejected idlePopup = (Some tt, idlePopup, []).
Proof.
  apply (deleted_session_not_restored [lit "1762164000000"] (lit "1762164000000")
           oneSession ∅ Rejected idlePopup).
  - left. reflexivity.
  - unfold clearSelectedHistory_store, oneSession. cbn [fold_left].
    f_equal; apply delete_singleton_eq.
Defined.
(** ** The ask handler *)

Ltac walk_handler :=
  repeat (progress (
    cbv beta iota zeta delta
      [bind ret throw tryCatch finally emit gets modify fetch
       setCurrentSessionId setChatContainer setQuestionValue setQuestionDisabled
       setAskDisabled setResyncDisabled setActiveTab addBubble removeBubble
       appendMessage executeScript surgicalExtract showAnswer replay
       truthy andb orb negb fst snd
       outcome after effects
       currentSessionId chatContainer nextBubble questionValue questionDisabled
       askDisabled resyncDisabled activeTab];
    cbn [app])).






(** X14.  The ask handler does nothing at all (no bubble, no request, no
    change of the popup) exactly when the question is empty or white space
    only, with or without a token. *)
Theorem ask_blank_question (isDetailed : bool) (hfToken : option jsstring)
    (reply : fetched) (p : popup) :
  blank (questionValue p) <-> askClick isDetailed hfToken reply p = (Some tt, p, []).
Proof.
  destruct p as [cur chat next qv qd ad rd tab]. cbn [questionValue]. split.
  - intros Hblank. unfold askClick. walk_handler. rewrite (trim_blank qv Hblank).
    reflexivity.
  - intros Hrun. destruct (trim qv) as [|c q] eqn:Hq; [apply trim_nil, Hq|]. exfalso.
    apply (f_equal (fun r => nextBubble (after r))) in Hrun. revert Hrun.
    unfold askClick. walk_handler. rewrite Hq.
    destruct hfToken as [[|t oken]|]; walk_handler; try lia.
    destruct cur as [[|c0 cur]|];
      (destruct reply as [|[|] [data|]]; walk_handler; try lia;
       destruct data as [| | | | |fields]; walk_handler; try lia;
       destruct (field "answer" fields) as [[|[|]|[|z|z]|[|c1 s]|items|fields']|];
       walk_handler; lia).
Qed.

(** X15.  The token the save button stores is the input without the white
    space around it and never empty, and the ask handler sends exactly this
    token in the [X-HF-Token] header of its request. *)
Theorem saved_token_is_sent (value token : jsstring) (isDetailed : bool)
    (reply : fetched) (p : popup) (c : N) (q : jsstring) :
  saveTokenClick value = Some token ->
  trim (questionValue p) = c :: q ->
  token <> [] /\ trimmed token /\ padded token value /\
  requests (effects (askClick isDetailed (Some token) reply p)) =
    [Fetch "/chat"
           [("Content-Type"%string, lit "application/json"); ("X-HF-Token"%string, token)]
           (Some (chatBody (c :: q) isDetailed))].
Proof.
  intros Hsave Hq. unfold saveTokenClick in Hsave.
  assert (Htoken : token = trim value /\ token <> []).
  { destruct (trim value) as [|t oken] eqn:E; [discriminate|].
    injection Hsave as <-. split; [reflexivity|discriminate]. }
  destruct Htoken as [-> Hne]. clear Hsave.
  split; [exact Hne|]. split; [apply trim_trimmed|]. split; [apply trim_padded|].
  destruct (trim value) as [|t oken]; [congruence|].
  unfold askClick. destruct p as [cur chat next qv qd ad rd tab].
  cbn [questionValue] in Hq. run_handler. rewrite Hq.
  destruct cur as [[|c0 cur]|];
    (destruct reply as [|[|] [data|]]; run_handler; try reflexivity;
     destruct data as [| | | | |fields]; run_handler; try reflexivity;
     destruct (field "answer" fields) as [[|[|]|[|z|z]|[|c1 s]|items|fields']|];
     run_handler; reflexivity).
Qed.

Lemma saved_token_is_sent_witness :
  lit "hf_token" <> [] /\ trimmed (lit "hf_token") /\ padded (lit "hf_token") (lit " hf_token ") /\
  requests (effects (askClick true (Some (lit "hf_token")) Rejected
                       (Popup None [] 0 (lit " why? ") false false false "tab-chat"))) =
    [Fetch "/chat"
           [("Content-Type"%string, lit "application/json");
            ("X-HF-Token"%string, lit "hf_token")]
           (Some (chatBody (lit "why?") true))].
Proof.
  apply (saved_token_is_sent (lit " hf_token ") (lit "hf_token") true Rejected
           (Popup None [] 0 (lit " why? ") false false false "tab-chat") 119 (lit "hy?"));
    reflexivity.
Defined.
(** ** The opening of the popup *)


